(** * Verification of [adv_update.py]: the advanced-stats upsert job

    A shallow embedding of the NBA advanced-stats updater
    ([src/adv_update.py]) and the proofs of its specified properties.

    Conventions of the embedding:
    - a Python [str] is a [string] whose characters are read as the code
      points 0..255, so that the non-breaking space U+00A0 handled by the
      program is an ordinary character;
    - a Python [int] is a [Z]; a [float] is an IEEE-754 binary64 value of
      [SpecFloat]; durations passed to [time.sleep] are rationals;
    - a [dict] that is only looked up is a [gmap]; a [dict] whose iteration
      order is observed is an association list in insertion order;
    - effects (HTTP, clock, random numbers, the spreadsheet) go through an
      explicit world state; an exception is a value of the result type. *)

From Stdlib Require Import ZArith String Ascii List Lia QArith Qpower Bool.
From Stdlib Require Import Sorting.Sorted Sorting.Permutation.
From Stdlib Require Import Floats.SpecFloat DecimalString.
From stdpp Require Import base option list gmap strings.

Open Scope string_scope.
Open Scope list_scope.
Open Scope Z_scope.

(** ** Python [str] primitives *)

Module PyStr.

Definition code (c : ascii) : N := N_of_ascii c.

(** [str.isspace] on one character, which is also what [\s] matches in
    a [str] pattern: TAB..CR, FS..US, SPACE, NEL and NBSP. *)
Definition is_space (c : ascii) : bool :=
  let n := code c in
  (((9 <=? n) && (n <=? 13)) || ((28 <=? n) && (n <=? 32))
   || (n =? 133) || (n =? 160))%N.

Definition lower_char (c : ascii) : ascii :=
  let n := code c in
  if (((65 <=? n) && (n <=? 90))
      || ((192 <=? n) && (n <=? 222) && negb (n =? 215)))%N
  then ascii_of_N (n + 32) else c.

(** [str.upper] maps sharp s to two letters.  The micro sign and y with
    diaeresis have upper-case forms above 255; they stay as they are,
    which never yields an ASCII letter. *)
Definition upper_char (c : ascii) : list ascii :=
  let n := code c in
  if (((97 <=? n) && (n <=? 122))
      || ((224 <=? n) && (n <=? 254) && negb (n =? 247)))%N
  then [ascii_of_N (n - 32)]
  else if (n =? 223)%N then ["S"; "S"]%char else [c].

Definition lower (s : list ascii) : list ascii := map lower_char s.
Definition upper (s : list ascii) : list ascii := concat (map upper_char s).

Fixpoint lstrip (s : list ascii) : list ascii :=
  match s with
  | c :: s' => if is_space c then lstrip s' else s
  | [] => []
  end.

Definition rstrip (s : list ascii) : list ascii := rev (lstrip (rev s)).
Definition strip (s : list ascii) : list ascii := rstrip (lstrip s).

Fixpoint starts_with (p s : list ascii) : bool :=
  match p, s with
  | [], _ => true
  | a :: p', b :: s' => Ascii.eqb a b && starts_with p' s'
  | _ :: _, [] => false
  end.

(** [s.replace(old, new)] for a non-empty [old] (every call site of the
    program passes a non-empty literal): scan from the left, replace each
    occurrence and resume after it.  [skip] counts the characters of the
    occurrence still to be passed over. *)
Fixpoint replace_from (old new : list ascii) (skip : nat) (s : list ascii)
  : list ascii :=
  match s with
  | [] => []
  | c :: s' =>
      match skip with
      | S k => replace_from old new k s'
      | O =>
          if starts_with old s
          then new ++ replace_from old new (Nat.pred (length old)) s'
          else c :: replace_from old new 0 s'
      end
  end.

Definition replace (old new s : list ascii) : list ascii :=
  replace_from old new 0 s.

(** [re.sub(r"\s+", " ", s)]: every maximal run of white space becomes
    one space.  [in_run] tells that the previous character was white. *)
Fixpoint sub_spaces (in_run : bool) (s : list ascii) : list ascii :=
  match s with
  | [] => []
  | c :: s' =>
      if is_space c
      then (if in_run then sub_spaces true s'
            else " "%char :: sub_spaces true s')
      else c :: sub_spaces false s'
  end.

(** [needle in s] *)
Fixpoint contains (needle s : list ascii) : bool :=
  starts_with needle s ||
  match s with
  | [] => false
  | _ :: s' => contains needle s'
  end.

Definition chars (s : string) : list ascii := list_ascii_of_string s.
Definition str (l : list ascii) : string := string_of_list_ascii l.

Definition py_strip (s : string) : string := str (strip (chars s)).
Definition py_lower (s : string) : string := str (lower (chars s)).
Definition py_upper (s : string) : string := str (upper (chars s)).
Definition py_replace (old new s : string) : string :=
  str (replace (chars old) (chars new) (chars s)).
Definition py_contains (needle s : string) : bool :=
  contains (chars needle) (chars s).
(** [s[:n]] *)
Definition py_take (n : nat) (s : string) : string := substring 0 n s.

End PyStr.

Import PyStr.

(** ** Small utilities *)

Definition nbsp : ascii := ascii_of_N 160.

(** [normalize_team_name] on a [str] argument ([s or ""] is then [s]). *)
Definition normalize_chars (s : list ascii) : list ascii :=
  let t := lower (strip s) in
  let t := replace [nbsp] [" "%char] t in
  let t := sub_spaces false t in
  let t := replace (chars "la clippers") (chars "los angeles clippers") t in
  let t := replace (chars "la lakers") (chars "los angeles lakers") t in
  t.

Definition normalize_team_name (s : string) : string :=
  str (normalize_chars (chars s)).

(** [col_to_a1]: the [while n:] loop, with [divmod(n - 1, 26)] as floor
    division.  [None] stands for a loop that has not finished within
    [fuel] iterations. *)
Fixpoint col_to_a1_loop (fuel : nat) (n : Z) (s : string) : option string :=
  if n =? 0 then Some s
  else match fuel with
       | O => None
       | S fuel' =>
           let q := (n - 1) / 26 in
           let r := (n - 1) mod 26 in
           col_to_a1_loop fuel' q (String (ascii_of_N (Z.to_N (65 + r))) s)
       end.

(** One iteration per letter is needed, so [col_idx_0 + 1] iterations are
    always enough for a non-negative index. *)
Definition col_to_a1 (col_idx_0 : Z) : option string :=
  col_to_a1_loop (Z.to_nat (col_idx_0 + 1)) (col_idx_0 + 1) "".

(** The inverse conversion named by the specification
    ([indexFromLetter]); the program itself has no such function. *)
Fixpoint letters_value (acc : Z) (s : string) : Z :=
  match s with
  | EmptyString => acc
  | String c s' => letters_value (acc * 26 + (Z.of_N (N_of_ascii c) - 64)) s'
  end.

Definition index_from_letter (s : string) : Z := letters_value 0 s - 1.

(** ** Python values *)

(** A cell of a spreadsheet row or of a JSON row set: a JSON scalar. *)
Inductive pyval : Type :=
| PNone
| PBool (b : bool)
| PInt (z : Z)
| PFloat (f : spec_float)
| PStr (s : string).

(** binary64 *)
Definition prec : Z := 53.
Definition emax : Z := 1024.
Definition fadd : spec_float -> spec_float -> spec_float := SFadd prec emax.
Definition fdiv : spec_float -> spec_float -> spec_float := SFdiv prec emax.
Definition float_of_Z (z : Z) : spec_float := binary_normalize prec emax z 0 false.

(** [float(n)] on an [int]: correctly rounded, [OverflowError] ([None])
    when the result does not fit. *)
Definition float_of_int (z : Z) : option spec_float :=
  match float_of_Z z with
  | S754_infinity _ => None
  | f => Some f
  end.

Definition float_is_zero (f : spec_float) : bool :=
  match f with S754_zero _ => true | _ => false end.

(** [str(n)] on an [int] *)
Definition str_of_int (z : Z) : string := NilZero.string_of_int (Z.to_int z).

(** The functions of the Python library that the program calls and that
    are not modelled here: the parser and the printer of floats and the
    two parsers of [datetime].  [None] stands for [ValueError]. *)
Record datetime : Type := mk_datetime {
  year : Z; month : Z; day : Z;
  hour : Z; minute : Z; second : Z; microsecond : Z
}.

Class Pylib : Type := {
  float_of_str : string -> option spec_float;
  float_repr : spec_float -> string;
  strptime : string -> string -> option datetime;
  fromisoformat : string -> option datetime
}.

(** The module-level configuration read from the environment. *)
Class Config : Type := {
  SHEET_ID : string;
  TAB_COMPLETED : string;
  TAB_ADV : string;
  LOOKBACK_DAYS : Z;
  MAX_GAMES_PER_RUN : Z;
  REQ_TIMEOUT : Z;
  MAX_TRIES : Z;
  SLEEP_BASE : Q
}.

Definition ADV_COLUMNS : list string :=
  [ "Game Date"; "Key"; "Game ID"; "Home Team"; "Away Team";
    "Home Pts"; "Away Pts"; "Total Pts"; "Home Poss"; "Away Poss"; "Poss Avg";
    "Home OffRtg"; "Away OffRtg"; "Home eFG%"; "Away eFG%";
    "Home TS%"; "Away TS%"; "Home FTr"; "Away FTr";
    "Home TOV%"; "Away TOV%"; "Home 3PAr"; "Away 3PAr";
    "Home ORB%"; "Away ORB%"; "Status"; "Last Attempt" ].

Definition COMPLETED_EXPECTED : list string :=
  [ "Team"; "Opponent"; "HomeAway"; "Game Date"; "ESPN Game ID";
    "NBA Game ID"; "Points For"; "Points Allowed" ].

Definition URL_SCOREBOARD : string := "https://stats.nba.com/stats/scoreboardv2".
Definition URL_TRAD : string := "https://stats.nba.com/stats/boxscoretraditionalv2".
Definition URL_ADV : string := "https://stats.nba.com/stats/boxscoreadvancedv2".

(** [ADV_COLUMNS.index(name)] for the three names the program looks up. *)
Definition IDX_GAME_ID : nat := 2.
Definition IDX_STATUS : nat := 25.
Definition IDX_LAST_ATTEMPT : nat := 26.

Section Values.
Context {lib : Pylib}.

Definition py_str (v : pyval) : string :=
  match v with
  | PNone => "None"
  | PBool true => "True"
  | PBool false => "False"
  | PInt z => str_of_int z
  | PFloat f => float_repr f
  | PStr s => s
  end.

Definition truthy (v : pyval) : bool :=
  match v with
  | PNone => false
  | PBool b => b
  | PInt z => negb (z =? 0)
  | PFloat f => negb (float_is_zero f)
  | PStr s => negb (String.eqb s "")
  end.

(** [x or ""] *)
Definition or_empty (v : pyval) : pyval := if truthy v then v else PStr "".

(** [float(x)]; [None] when it raises. *)
Definition to_float (v : pyval) : option spec_float :=
  match v with
  | PNone => None
  | PBool b => Some (float_of_Z (if b then 1 else 0))
  | PInt z => float_of_int z
  | PFloat f => Some f
  | PStr s => float_of_str s
  end.

Definition is_num (x : pyval) : bool :=
  match x with
  | PNone => false
  | PStr EmptyString => false
  | _ => match to_float x with
         | Some f => SFeqb f f
         | None => false
         end
  end.

End Values.

(** ** Dates *)

Fixpoint lex_ltb (a b : list Z) : bool :=
  match a, b with
  | x :: a', y :: b' => (x <? y) || ((x =? y) && lex_ltb a' b')
  | _, _ => false
  end.

Definition dt_fields (d : datetime) : list Z :=
  [year d; month d; day d; hour d; minute d; second d; microsecond d].

(** [a < b] on naive datetimes *)
Definition dt_ltb (a b : datetime) : bool := lex_ltb (dt_fields a) (dt_fields b).

Definition is_leap (y : Z) : bool :=
  (y mod 4 =? 0) && (negb (y mod 100 =? 0) || (y mod 400 =? 0)).

Definition days_in_month (y m : Z) : Z :=
  if m =? 2 then (if is_leap y then 29 else 28)
  else if (m =? 4) || (m =? 6) || (m =? 9) || (m =? 11) then 30
  else 31.

Definition prev_day (d : datetime) : datetime :=
  if 1 <? day d then
    mk_datetime (year d) (month d) (day d - 1)
                (hour d) (minute d) (second d) (microsecond d)
  else if 1 <? month d then
    mk_datetime (year d) (month d - 1) (days_in_month (year d) (month d - 1))
                (hour d) (minute d) (second d) (microsecond d)
  else
    mk_datetime (year d - 1) 12 31
                (hour d) (minute d) (second d) (microsecond d).

Definition next_day (d : datetime) : datetime :=
  if day d <? days_in_month (year d) (month d) then
    mk_datetime (year d) (month d) (day d + 1)
                (hour d) (minute d) (second d) (microsecond d)
  else if month d <? 12 then
    mk_datetime (year d) (month d + 1) 1
                (hour d) (minute d) (second d) (microsecond d)
  else
    mk_datetime (year d + 1) 1 1
                (hour d) (minute d) (second d) (microsecond d).

(** [d - timedelta(days=n)]; [None] is [OverflowError], raised for a
    delta of more than 999999999 days or a result outside year 1..9999. *)
Definition minus_days (d : datetime) (n : Z) : option datetime :=
  if 999999999 <? Z.abs n then None
  else
    let r := if 0 <=? n then Nat.iter (Z.to_nat n) prev_day d
             else Nat.iter (Z.to_nat (- n)) next_day d in
    if (1 <=? year r) && (year r <=? 9999) then Some r else None.

(** [datetime(dt.year, dt.month, dt.day)] *)
Definition midnight (d : datetime) : datetime :=
  mk_datetime (year d) (month d) (day d) 0 0 0 0.

Definition pad2 (z : Z) : string :=
  if z <? 10 then "0" +:+ str_of_int z else str_of_int z.

Definition pad4 (z : Z) : string :=
  if z <? 10 then "000" +:+ str_of_int z
  else if z <? 100 then "00" +:+ str_of_int z
  else if z <? 1000 then "0" +:+ str_of_int z
  else str_of_int z.

(** [strftime] for the four formats of the program; the year is written
    with four digits. *)
Definition strftime_mdy (d : datetime) : string :=          (* %m/%d/%Y *)
  pad2 (month d) +:+ "/" +:+ pad2 (day d) +:+ "/" +:+ pad4 (year d).
Definition strftime_mdy_hm (d : datetime) : string :=       (* %m/%d/%Y %H:%M *)
  strftime_mdy d +:+ " " +:+ pad2 (hour d) +:+ ":" +:+ pad2 (minute d).
Definition strftime_ymd (d : datetime) : string :=          (* %Y%m%d *)
  pad4 (year d) +:+ pad2 (month d) +:+ pad2 (day d).
Definition strftime_y_m_d (d : datetime) : string :=        (* %Y-%m-%d *)
  pad4 (year d) +:+ "-" +:+ pad2 (month d) +:+ "-" +:+ pad2 (day d).

Definition format_mdy (dt : datetime) : string := strftime_mdy dt.

Section Dates.
Context {lib : Pylib}.

Definition SHEET_DATE_FORMATS : list string :=
  [ "%m/%d/%Y %H:%M"; "%m/%d/%Y %H:%M:%S"; "%m/%d/%Y"; "%Y-%m-%d";
    "%Y-%m-%d %H:%M:%S" ].

Fixpoint first_format (s : string) (fmts : list string) : option datetime :=
  match fmts with
  | [] => None
  | fmt :: rest =>
      match strptime s fmt with
      | Some d => Some d
      | None => first_format s rest
      end
  end.

(** [.replace(tzinfo=None)] keeps the fields, which is all a [datetime]
    holds here. *)
Definition parse_sheet_date (value : pyval) : option datetime :=
  match value with
  | PNone => None
  | PStr EmptyString => None
  | _ =>
      let s := py_strip (py_str value) in
      match first_format s SHEET_DATE_FORMATS with
      | Some d => Some d
      | None => fromisoformat (py_replace "Z" "+00:00" s)
      end
  end.

Definition build_key (game_dt : option datetime) (home_team away_team : string)
  : string :=
  match game_dt with
  | None => ""
  | Some dt =>
      strftime_ymd dt +:+ "|" +:+ normalize_team_name home_team
        +:+ "|" +:+ normalize_team_name away_team
  end.

End Dates.

(** ** The outside world *)

(** The outcome of a computation that may raise; an exception is kept as
    its text [str(e)], which is all the program ever reads from one. *)
Inductive result (A : Type) : Type :=
| Ok (a : A)
| Raise (e : string).
Arguments Ok {A} a.
Arguments Raise {A} e.

(** One entry of ["resultSets"] in a stats response. *)
Record resultset : Type := mk_resultset {
  rs_name : string;
  rs_headers : option (list string);        (* [None]: absent or null *)
  rs_rowSet : option (list (list pyval))    (* [None]: absent or null *)
}.

(** A parsed response body: [None] when ["resultSets"] is absent or not a
    list; an entry is [None] when it is null or empty. *)
Record json_body : Type := mk_json {
  resultSets : option (list (option resultset))
}.

(** What one call of [requests.get] does: it raises, or it returns a
    response with a status, a text and the outcome of [r.json()]. *)
Inductive HttpOutcome : Type :=
| NetError (e : string)
| Response (status_code : Z) (text : string) (json : result json_body).

Definition params_t : Type := list (string * string).

(** The behaviour of everything outside the process, as a script: the
    reply to the k-th request, the k-th 53-bit random draw and the k-th
    reading of the clock. *)
Class Outside : Type := {
  http_reply : nat -> string -> params_t -> HttpOutcome;
  random_bits : nat -> N;
  now_at : nat -> datetime;
  now_iso_at : nat -> string
}.

Inductive Event : Type :=
| Requested (url : string) (params : params_t)
| Slept (seconds : Q)
| Updated (tab a1 : string) (values : list (list pyval))
| Appended (tab a1 : string) (values : list (list pyval))
| BatchUpdated (data : list (string * pyval)).

(** The state threaded through a run: how far the script has been
    consumed, what the process did so far (oldest first) and the
    spreadsheet, one list of rows per tab, row 1 first. *)
Record World : Type := mk_world {
  w_requests : nat;
  w_draws : nat;
  w_clock : nat;
  w_log : list Event;
  w_sheets : gmap string (list (list pyval))
}.

Definition M (A : Type) : Type := World -> result A * World.

#[global] Instance M_ret : MRet M := fun A (a : A) w => (Ok a, w).
#[global] Instance M_bind : MBind M := fun A B (f : A -> M B) (m : M A) w =>
  match m w with
  | (Ok a, w') => f a w'
  | (Raise e, w') => (Raise e, w')
  end.

Definition raise {A : Type} (e : string) : M A := fun w => (Raise e, w).

(** [try: m  except Exception as e: handler(e)] *)
Definition try_except {A : Type} (m : M A) (handler : string -> M A) : M A :=
  fun w =>
    match m w with
    | (Ok a, w') => (Ok a, w')
    | (Raise e, w') => handler e w'
    end.

(** A pure computation that may raise, run inside [M]. *)
Definition lift {A : Type} (r : result A) : M A := fun w => (r, w).

Definition log_event (e : Event) : M unit := fun w =>
  (Ok tt, mk_world (w_requests w) (w_draws w) (w_clock w)
                   (w_log w ++ [e]) (w_sheets w)).

Section Effects.
Context {cfg : Config} {out : Outside}.

Definition requests_get (url : string) (params : params_t) : M HttpOutcome :=
  fun w =>
    (Ok (http_reply (w_requests w) url params),
     mk_world (S (w_requests w)) (w_draws w) (w_clock w)
              (w_log w ++ [Requested url params]) (w_sheets w)).

(** The k-th value of [random.random()]: a 53-bit draw scaled into
    [0, 1). *)
Definition unit_draw (k : nat) : Q :=
  Z.of_N (random_bits k mod 2 ^ 53)%N # 2 ^ 53.

Definition random_random : M Q := fun w =>
  (Ok (unit_draw (w_draws w)),
   mk_world (w_requests w) (S (w_draws w)) (w_clock w) (w_log w) (w_sheets w)).

(** [random.uniform(a, b)] is [a + (b - a) * random()]. *)
Definition uniform_of (a b u : Q) : Q := (a + (b - a) * u)%Q.

Definition random_uniform (a b : Q) : M Q :=
  u ← random_random; mret (uniform_of a b u).

(** [time.sleep] refuses a negative duration. *)
Definition time_sleep (seconds : Q) : M unit :=
  if Qle_bool 0 seconds then log_event (Slept seconds)
  else raise "sleep length must be non-negative".

Definition datetime_now : M datetime := fun w =>
  (Ok (now_at (w_clock w)),
   mk_world (w_requests w) (w_draws w) (S (w_clock w)) (w_log w) (w_sheets w)).

Definition now_iso : M string := fun w =>
  (Ok (now_iso_at (w_clock w)),
   mk_world (w_requests w) (w_draws w) (S (w_clock w)) (w_log w) (w_sheets w)).

(** The deterministic part of the delay after attempt [i]. *)
Definition backoff (i : Z) : Q := (SLEEP_BASE * (8 # 5) ^ i)%Q.

Definition jitter_sleep (i : Z) : M unit :=
  j ← random_uniform 0 (1 # 2); time_sleep (backoff i + j)%Q.

(** ** NBA fetch *)

Definition str_of_last_err (last_err : option string) : string :=
  match last_err with
  | None => "None"
  | Some e => e
  end.

(** The [for i in range(MAX_TRIES)] loop of [nba_fetch], with [n]
    iterations left and [i] the current attempt. *)
Fixpoint nba_fetch_loop (url : string) (params : params_t)
  (n : nat) (i : Z) (last_err : option string) : M json_body :=
  match n with
  | O =>
      raise ("NBA fetch failed after " +:+ str_of_int MAX_TRIES
             +:+ " tries: " +:+ str_of_last_err last_err)
  | S n' =>
      r ← requests_get url params;
      match r with
      | Response status text json =>
          if status =? 200 then
            match json with
            | Ok j => mret j
            | Raise e =>
                _ ← jitter_sleep i;
                nba_fetch_loop url params n' (i + 1) (Some e)
            end
          else
            _ ← jitter_sleep i;
            nba_fetch_loop url params n' (i + 1)
              (Some ("NBA HTTP " +:+ str_of_int status +:+ ": "
                     +:+ py_take 250 text))
      | NetError e =>
          _ ← jitter_sleep i;
          nba_fetch_loop url params n' (i + 1) (Some e)
      end
  end.

Definition nba_fetch (url : string) (params : params_t) : M json_body :=
  nba_fetch_loop url params (Z.to_nat MAX_TRIES) 0 None.

End Effects.

(** ** Result sets *)

Fixpoint find_resultset (items : list (option resultset)) (name : string)
  : option resultset :=
  match items with
  | [] => None
  | Some item :: rest =>
      if String.eqb (rs_name item) name then Some item
      else find_resultset rest name
  | None :: rest => find_resultset rest name
  end.

Definition parse_resultset (j : json_body) (name : string)
  : result (list string * list (list pyval)) :=
  let target :=
    match resultSets j with
    | Some rs => find_resultset rs name
    | None => None
    end in
  match target with
  | None => Raise ("Could not find " +:+ name +:+ " in resultSets")
  | Some target =>
      match rs_headers target, rs_rowSet target with
      | Some (h :: hs), Some rows => Ok (h :: hs, rows)
      | _, _ => Raise (name +:+ " missing headers/rows")
      end
  end.

(** [{str(h).strip(): i for i, h in enumerate(headers)}]: a later header
    of the same name wins. *)
Fixpoint idx_map_from (i : nat) (headers : list string) (acc : gmap string nat)
  : gmap string nat :=
  match headers with
  | [] => acc
  | h :: rest => idx_map_from (S i) rest (<[py_strip h := i]> acc)
  end.

Definition idx_map (headers : list string) : gmap string nat :=
  idx_map_from 0 headers ∅.

(** [xs[i]] for [i >= 0] *)
Definition list_index {A : Type} (xs : list A) (i : nat) : result A :=
  match xs !! i with
  | Some x => Ok x
  | None => Raise "list index out of range"
  end.

(** [xs[d.get(k)]]: indexing with [None] is a [TypeError]. *)
Definition list_index_opt {A : Type} (xs : list A) (i : option nat) : result A :=
  match i with
  | Some i => list_index xs i
  | None => Raise "list indices must be integers or slices, not NoneType"
  end.

#[global] Instance result_ret : MRet result := fun A (a : A) => Ok a.
#[global] Instance result_bind : MBind result :=
  fun A B (f : A -> result B) (m : result A) =>
    match m with
    | Ok a => f a
    | Raise e => Raise e
    end.

Section RowBuilder.
Context {lib : Pylib} {cfg : Config} {out : Outside}.

(** The [for r in rows] loop of [pick_home_away]. *)
Fixpoint scan_matchup (rows : list (list pyval)) (mi : nat)
  (home away : option (list pyval))
  : result (option (list pyval) * option (list pyval)) :=
  match rows with
  | [] => Ok (home, away)
  | r :: rest =>
      c ← list_index r mi;
      let m := py_str (or_empty c) in
      let home := if py_contains " vs " m then Some r else home in
      let away := if py_contains " @ " m then Some r else away in
      scan_matchup rest mi home away
  end.

Definition pick_home_away (rows : list (list pyval)) (hidx : gmap string nat)
  : result (list pyval * list pyval) :=
  match hidx !! "MATCHUP" with
  | None =>
      r0 ← list_index rows 0;
      r1 ← (if (1 <? length rows)%nat then list_index rows 1
            else list_index rows 0);
      mret (r0, r1)
  | Some mi =>
      ha ← scan_matchup rows mi None None;
      match ha with
      | (Some home, Some away) => mret (home, away)
      | _ =>
          if (2 <=? length rows)%nat then
            r0 ← list_index rows 0; r1 ← list_index rows 1; mret (r0, r1)
          else
            r0 ← list_index rows 0; r1 ← list_index rows 0; mret (r0, r1)
      end
  end.

Definition team_full (row : list pyval) (idx : gmap string nat) : result string :=
  city ← match idx !! "TEAM_CITY" with
         | Some i => c ← list_index row i; mret (py_str (or_empty c))
         | None =>
             match idx !! "TEAM_CITY_NAME" with
             | Some i => c ← list_index row i; mret (py_str (or_empty c))
             | None => mret ""
             end
         end;
  name ← match idx !! "TEAM_NAME" with
         | Some i => c ← list_index row i; mret (py_str (or_empty c))
         | None => mret ""
         end;
  let full := py_strip (city +:+ " " +:+ name) in
  mret (if String.eqb full "" then
          py_strip (if String.eqb name "" then city else name)
        else full).

(** The closures [h] and [a] of [fetch_adv_row]. *)
Definition field_of (row : list pyval) (aix : gmap string nat) (field : string)
  : result pyval :=
  match aix !! field with
  | Some i => list_index row i
  | None => Ok (PStr "")
  end.

Definition float_or_nan (v : pyval) : spec_float :=
  match to_float v with Some f => f | None => S754_nan end.

Definition box_params (nba_game_id : string) : params_t :=
  [ ("GameID", nba_game_id); ("StartPeriod", "0"); ("EndPeriod", "10");
    ("StartRange", "0"); ("EndRange", "28800"); ("RangeType", "0") ].

Definition fetch_adv_row (nba_game_id : string) (game_dt_hint : option datetime)
  (existing_key : string) : M (list pyval) :=
  let params := box_params nba_game_id in
  trad ← nba_fetch URL_TRAD params;
  adv ← nba_fetch URL_ADV params;
  '(trad_headers, trad_rows) ← lift (parse_resultset trad "TeamStats");
  '(adv_headers, adv_rows) ← lift (parse_resultset adv "TeamStats");
  let tix := idx_map trad_headers in
  let aix := idx_map adv_headers in
  '(home_adv, away_adv) ← lift (pick_home_away adv_rows aix);
  '(home_trad, away_trad) ← lift (pick_home_away trad_rows tix);
  home_team ← lift (team_full home_adv aix);
  away_team ← lift (team_full away_adv aix);
  home_pts ← lift (list_index_opt home_trad (tix !! "PTS"));
  away_pts ← lift (list_index_opt away_trad (tix !! "PTS"));
  let total_pts :=
    if is_num home_pts && is_num away_pts
    then PFloat (fadd (float_or_nan home_pts) (float_or_nan away_pts))
    else PStr "" in
  let h := field_of home_adv aix in
  let a := field_of away_adv aix in
  home_poss ← lift (h "POSS");
  away_poss ← lift (a "POSS");
  let poss_avg :=
    if is_num home_poss && is_num away_poss
    then PFloat (fdiv (fadd (float_or_nan home_poss) (float_or_nan away_poss))
                      (float_of_Z 2))
    else PStr "" in
  home_off ← lift (h "OFF_RATING");
  away_off ← lift (a "OFF_RATING");
  home_efg ← lift (h "EFG_PCT");
  away_efg ← lift (a "EFG_PCT");
  home_ts ← lift (h "TS_PCT");
  away_ts ← lift (a "TS_PCT");
  home_ftr ← lift (h "FTA_RATE");
  away_ftr ← lift (a "FTA_RATE");
  home_tov ← lift (h "TM_TOV_PCT");
  away_tov ← lift (a "TM_TOV_PCT");
  home_3par ← lift (h "FG3A_RATE");
  away_3par ← lift (a "FG3A_RATE");
  home_orb ← lift (h "OREB_PCT");
  away_orb ← lift (a "OREB_PCT");
  let game_date_value :=
    match game_dt_hint with
    | Some dt => strftime_mdy_hm dt
    | None => ""
    end in
  let key_value :=
    if String.eqb existing_key "" then build_key game_dt_hint home_team away_team
    else py_strip existing_key in
  stamp ← now_iso;
  let status :=
    if negb (is_num home_pts) || negb (is_num away_pts)
    then "ERR: missing points" else "OK" in
  mret [ PStr game_date_value; PStr key_value; PStr nba_game_id;
         PStr home_team; PStr away_team;
         home_pts; away_pts; total_pts;
         home_poss; away_poss; poss_avg;
         home_off; away_off; home_efg; away_efg; home_ts; away_ts;
         home_ftr; away_ftr; home_tov; away_tov; home_3par; away_3par;
         home_orb; away_orb;
         PStr status; PStr stamp ].

End RowBuilder.

(** ** The spreadsheet *)

(** The two ranges the program reads. *)
Inductive read_range : Type :=
| Row1      (* "1:1" *)
| FromRow2. (* "A2:ZZ" *)

Definition sheet_rows (tab : string) : M (list (list pyval)) := fun w =>
  match w_sheets w !! tab with
  | Some rows => (Ok rows, w)
  | None => (Raise ("Unable to parse range: " +:+ tab), w)
  end.

Definition set_sheet (tab : string) (rows : list (list pyval)) : M unit := fun w =>
  (Ok tt, mk_world (w_requests w) (w_draws w) (w_clock w) (w_log w)
                   (<[tab := rows]> (w_sheets w))).

(** [resp.get("values", [])]: an empty first row gives no values at all;
    column ZZ is the 702nd. *)
Definition get_values (tab : string) (a1 : read_range) : M (list (list pyval)) :=
  rows ← sheet_rows tab;
  mret match a1 with
       | Row1 => match rows with
                 | (c :: cs) :: _ => [c :: cs]
                 | _ => []
                 end
       | FromRow2 => map (take 702) (drop 1 rows)
       end.

(** Writing [vals] from column A of a row leaves the cells to the right. *)
Definition overwrite_row (old vals : list pyval) : list pyval :=
  vals ++ drop (length vals) old.

(** Rows are numbered from 1; a sheet is extended by empty rows up to the
    row written. *)
Definition put_row (rows : list (list pyval)) (rownum : nat) (vals : list pyval)
  : list (list pyval) :=
  let i := Nat.pred rownum in
  let rows := rows ++ replicate (S i - length rows) [] in
  <[i := overwrite_row (default [] (rows !! i)) vals]> rows.

Definition put_cell (rows : list (list pyval)) (rownum col : nat) (v : pyval)
  : list (list pyval) :=
  let i := Nat.pred rownum in
  let rows := rows ++ replicate (S i - length rows) [] in
  let r := default [] (rows !! i) in
  let r := r ++ replicate (S col - length r) (PStr "") in
  <[i := <[col := v]> r]> rows.

(** [update_values] with a one-row range that starts in column A. *)
Definition update_values (tab a1 : string) (rownum : nat) (vals : list pyval)
  : M unit :=
  rows ← sheet_rows tab;
  _ ← set_sheet tab (put_row rows rownum vals);
  log_event (Updated tab a1 [vals]).

Definition append_values (tab a1 : string) (values : list (list pyval)) : M unit :=
  rows ← sheet_rows tab;
  _ ← set_sheet tab (rows ++ values);
  log_event (Appended tab a1 values).

(** One entry of the [batchUpdate] body: its range text and the cell it
    names. *)
Record cell_write : Type := mk_cell_write {
  cw_tab : string; cw_range : string;
  cw_row : nat; cw_col : nat; cw_value : pyval
}.

Fixpoint apply_cell_writes (data : list cell_write) : M unit :=
  match data with
  | [] => mret tt
  | d :: rest =>
      rows ← sheet_rows (cw_tab d);
      _ ← set_sheet (cw_tab d) (put_cell rows (cw_row d) (cw_col d) (cw_value d));
      apply_cell_writes rest
  end.

Definition batch_update (chunk : list cell_write) : M unit :=
  _ ← apply_cell_writes chunk;
  log_event (BatchUpdated (map (fun d => (cw_range d, cw_value d)) chunk)).

(** Column letters of a list position (never negative, so the loop of
    [col_to_a1] always finishes). *)
Definition col_letters (i : nat) : string :=
  default "" (col_to_a1 (Z.of_nat i)).

(** [{h: i for i, h in enumerate(headers) if h}] *)
Fixpoint header_index_from (i : nat) (headers : list string)
  (acc : gmap string nat) : gmap string nat :=
  match headers with
  | [] => acc
  | h :: rest =>
      header_index_from (S i) rest
        (if String.eqb h "" then acc else <[h := i]> acc)
  end.

Definition header_index (headers : list string) : gmap string nat :=
  header_index_from 0 headers ∅.

Definition in_map {A : Type} (m : gmap string A) (k : string) : bool :=
  match m !! k with Some _ => true | None => false end.

Section Sheets.
Context {lib : Pylib} {cfg : Config} {out : Outside}.

Definition ensure_headers (tab : string) (required : list string)
  : M (gmap string nat) :=
  header ← get_values tab Row1;
  match header with
  | (c :: cs) :: _ =>
      let headers := map (fun h => py_strip (py_str h)) (c :: cs) in
      let existing := header_index headers in
      let missing := filter (fun h => in_map existing h = false) required in
      match missing with
      | [] => mret existing
      | _ :: _ =>
          let new_headers := headers ++ missing in
          let end_col := (length new_headers - 1)%nat in
          let a1 := col_letters 0 +:+ "1:" +:+ col_letters end_col +:+ "1" in
          _ ← update_values tab a1 1 (map PStr new_headers);
          mret (header_index new_headers)
      end
  | _ => raise (tab +:+ " missing header row")
  end.

(** ** Completed games *)

Record row_ref : Type := mk_row_ref {
  rownum : nat; espn_id : string; nba_id_existing : string
}.

Record game_info : Type := mk_game_info {
  gi_date : datetime; gi_home : string; gi_away : string
}.

Record completed_index : Type := mk_completed {
  c_col : gmap string nat;
  espn_to_info : list (string * game_info);
  row_refs : list row_ref
}.

(** [col[name]] is a [KeyError] for an unknown name. *)
Definition dict_index {A : Type} (d : gmap string A) (k : string) : result A :=
  match d !! k with
  | Some v => Ok v
  | None => Raise ("'" +:+ k +:+ "'")
  end.

(** The closure [getv]: a cell beyond the end of a short row reads as
    the empty string. *)
Definition getv (col : gmap string nat) (r : list pyval) (name : string)
  : result pyval :=
  idx ← dict_index col name;
  mret (default (PStr "") (r !! idx)).

Definition assoc_mem {A : Type} (k : string) (l : list (string * A)) : bool :=
  existsb (fun kv => String.eqb (fst kv) k) l.

(** The body of the [for i, r in enumerate(data, start=2)] loop. *)
Definition completed_step (col : gmap string nat) (cutoff : datetime)
  (i : nat) (r : list pyval)
  (st : list (string * game_info) * list row_ref)
  : result (list (string * game_info) * list row_ref) :=
  team ← getv col r "Team";
  opp ← getv col r "Opponent";
  ha ← getv col r "HomeAway";
  let homeaway := py_lower (py_strip (py_str (or_empty ha))) in
  gdate_raw ← getv col r "Game Date";
  espn ← getv col r "ESPN Game ID";
  let espn_id := py_strip (py_str (or_empty espn)) in
  nba ← getv col r "NBA Game ID";
  let nba_id_existing := py_strip (py_str (or_empty nba)) in
  match parse_sheet_date gdate_raw with
  | None => mret st
  | Some gdt =>
      if String.eqb espn_id "" then mret st
      else if dt_ltb gdt cutoff then mret st
      else
        let refs := snd st ++ [mk_row_ref i espn_id nba_id_existing] in
        let info :=
          if negb (assoc_mem espn_id (fst st)) && String.eqb homeaway "home"
          then fst st ++ [(espn_id, mk_game_info gdt (py_str team) (py_str opp))]
          else fst st in
        mret (info, refs)
  end.

Fixpoint completed_loop (col : gmap string nat) (cutoff : datetime)
  (i : nat) (data : list (list pyval))
  (st : list (string * game_info) * list row_ref)
  : result (list (string * game_info) * list row_ref) :=
  match data with
  | [] => mret st
  | r :: rest =>
      st' ← completed_step col cutoff i r st;
      completed_loop col cutoff (S i) rest st'
  end.

Definition read_completed_index : M completed_index :=
  col ← ensure_headers TAB_COMPLETED COMPLETED_EXPECTED;
  data ← get_values TAB_COMPLETED FromRow2;
  now ← datetime_now;
  cutoff ← match minus_days now LOOKBACK_DAYS with
           | Some c => mret c
           | None => raise "date value out of range"
           end;
  '(info, refs) ← lift (completed_loop col cutoff 2 data ([], []));
  mret (mk_completed col info refs).

(** ** ESPN to NBA identifiers *)

Record scheduled_game : Type := mk_scheduled {
  nba_game_id : string; sg_home : string; sg_away : string
}.

(** [str(r[ls[name]])] when the header is present, else [""]. *)
Definition str_cell_if_present (r : list pyval) (ls : gmap string nat)
  (name : string) : result string :=
  match ls !! name with
  | Some i => c ← list_index r i; mret (py_str c)
  | None => mret ""
  end.

Fixpoint team_names (ls_rows : list (list pyval)) (ls : gmap string nat)
  (acc : gmap string string) : result (gmap string string) :=
  match ls_rows with
  | [] => mret acc
  | r :: rest =>
      tid ← str_cell_if_present r ls "TEAM_ID";
      city ← str_cell_if_present r ls "TEAM_CITY_NAME";
      nick ← str_cell_if_present r ls "TEAM_NICKNAME";
      let full := py_strip (city +:+ " " +:+ nick) in
      team_names rest ls
        (if negb (String.eqb tid "") && negb (String.eqb full "")
         then <[tid := full]> acc else acc)
  end.

Definition str_cell (r : list pyval) (gh : gmap string nat) (name : string)
  : result string :=
  i ← dict_index gh name;
  c ← list_index r i;
  mret (py_strip (py_str c)).

Fixpoint header_games (gh_rows : list (list pyval)) (gh : gmap string nat)
  (names : gmap string string) : result (list scheduled_game) :=
  match gh_rows with
  | [] => mret []
  | r :: rest =>
      game_id ← str_cell r gh "GAME_ID";
      home_tid ← str_cell r gh "HOME_TEAM_ID";
      away_tid ← str_cell r gh "VISITOR_TEAM_ID";
      let home_name := default "" (names !! home_tid) in
      let away_name := default "" (names !! away_tid) in
      games ← header_games rest gh names;
      mret (if negb (String.eqb game_id "") && negb (String.eqb home_name "")
               && negb (String.eqb away_name "")
            then mk_scheduled game_id home_name away_name :: games
            else games)
  end.

Definition build_scoreboard_games_for_date (game_date : datetime)
  : M (list scheduled_game) :=
  let params := [ ("GameDate", format_mdy game_date); ("LeagueID", "00");
                  ("DayOffset", "0") ] in
  j ← nba_fetch URL_SCOREBOARD params;
  '(gh_headers, gh_rows) ← lift (parse_resultset j "GameHeader");
  '(ls_headers, ls_rows) ← lift (parse_resultset j "LineScore");
  let gh := idx_map gh_headers in
  let ls := idx_map ls_headers in
  team_id_to_name ← lift (team_names ls_rows ls ∅);
  lift (header_games gh_rows gh team_id_to_name).

(** [date_to_list.setdefault(dkey, []).append(item)], days in the order
    of their first game. *)
Fixpoint group_add {A : Type} (dkey : string) (item : A)
  (groups : list (string * list A)) : list (string * list A) :=
  match groups with
  | [] => [(dkey, [item])]
  | (k, l) :: rest =>
      if String.eqb k dkey then (k, l ++ [item]) :: rest
      else (k, l) :: group_add dkey item rest
  end.

Definition date_to_list (info : list (string * game_info))
  : list (string * list (string * game_info)) :=
  fold_left (fun groups e => group_add (strftime_y_m_d (gi_date (snd e))) e groups)
            info [].

Definition matchup (home away : string) : string :=
  normalize_team_name home +:+ "|" +:+ normalize_team_name away.

Definition schedule_lookup (nba_games : list scheduled_game) : gmap string string :=
  fold_left (fun lookup g => <[matchup (sg_home g) (sg_away g) := nba_game_id g]> lookup)
            nba_games ∅.

Definition match_games (lookup : gmap string string)
  (games : list (string * game_info)) (out0 : gmap string string)
  : gmap string string :=
  fold_left (fun acc e =>
               let nba_id := default "" (lookup !! matchup (gi_home (snd e))
                                                          (gi_away (snd e))) in
               if String.eqb nba_id "" then acc else <[fst e := nba_id]> acc)
            games out0.

Fixpoint map_days (days : list (string * list (string * game_info)))
  (acc : gmap string string) : M (gmap string string) :=
  match days with
  | [] => mret acc
  | (dkey, games) :: rest =>
      dt ← lift (e ← list_index games 0; mret (gi_date (snd e)));
      nba_games ← build_scoreboard_games_for_date (midnight dt);
      let acc := match_games (schedule_lookup nba_games) games acc in
      j ← random_uniform 0 (4 # 10);
      _ ← time_sleep ((7 # 10) + j)%Q;
      map_days rest acc
  end.

Definition map_espn_to_nba (info : list (string * game_info))
  : M (gmap string string) :=
  map_days (date_to_list info) ∅.

(** ** The advanced-stats index *)

Record adv_index : Type := mk_adv_index {
  a_col : gmap string nat;
  gid_to_row : gmap string nat;
  gid_to_status : gmap string string;
  gid_to_key : gmap string string
}.

(** [str(r[idx]).strip() if idx < len(r) else ""] *)
Definition cell_text (r : list pyval) (idx : nat) : string :=
  match r !! idx with
  | Some c => py_strip (py_str c)
  | None => ""
  end.

Definition status_text (r : list pyval) (idx : nat) : string :=
  match r !! idx with
  | Some c => py_upper (py_strip (py_str c))
  | None => ""
  end.

Fixpoint adv_loop (gid_idx status_idx key_idx : nat) (i : nat)
  (data : list (list pyval)) (ix : adv_index) : adv_index :=
  match data with
  | [] => ix
  | r :: rest =>
      let gid := cell_text r gid_idx in
      adv_loop gid_idx status_idx key_idx (S i) rest
        (if String.eqb gid "" then ix
         else mk_adv_index (a_col ix)
                (<[gid := i]> (gid_to_row ix))
                (<[gid := status_text r status_idx]> (gid_to_status ix))
                (<[gid := cell_text r key_idx]> (gid_to_key ix)))
  end.

Definition read_adv_index : M adv_index :=
  col ← ensure_headers TAB_ADV ADV_COLUMNS;
  data ← get_values TAB_ADV FromRow2;
  gid_idx ← lift (dict_index col "Game ID");
  status_idx ← lift (dict_index col "Status");
  key_idx ← lift (dict_index col "Key");
  mret (adv_loop gid_idx status_idx key_idx 2 data (mk_adv_index col ∅ ∅ ∅)).

End Sheets.

(** ** Main *)

(** [list.sort] is stable: [x] is placed before the first element that
    need not precede it.  [before y x] tells that [y] must come first. *)
Fixpoint insert_stable {A : Type} (before : A -> A -> bool) (x : A) (l : list A)
  : list A :=
  match l with
  | [] => [x]
  | y :: l' => if before y x then y :: insert_stable before x l'
               else x :: y :: l'
  end.

Definition stable_sort {A : Type} (before : A -> A -> bool) (l : list A) : list A :=
  foldr (insert_stable before) [] l.

(** [range(0, len(l), n)] with [l[i:i + n]] *)
Fixpoint chunks_fuel {A : Type} (fuel n : nat) (l : list A) : list (list A) :=
  match fuel, l with
  | S fuel', _ :: _ => take n l :: chunks_fuel fuel' n (drop n l)
  | _, _ => []
  end.

Definition chunks {A : Type} (n : nat) (l : list A) : list (list A) :=
  chunks_fuel (length l) n l.

Record loop_state : Type := mk_loop_state {
  processed : Z;
  updates : list (nat * list pyval);
  appends : list (list pyval)
}.

Inductive outcome : Type :=
| NoRecentGames
| NoMappings
| Done (st : loop_state).

(** The row written when [fetch_adv_row] raises. *)
Definition error_row (nba_id e stamp : string) : list pyval :=
  let rowvals := replicate (length ADV_COLUMNS) (PStr "") in
  let rowvals := <[IDX_GAME_ID := PStr nba_id]> rowvals in
  let rowvals := <[IDX_STATUS := PStr ("ERR: " +:+ py_take 160 e)]> rowvals in
  <[IDX_LAST_ATTEMPT := PStr stamp]> rowvals.

(** [if existing_row]: a row number is true unless it is 0 or absent. *)
Definition row_truthy (existing_row : option nat) : bool :=
  match existing_row with
  | Some r => negb (r =? 0)%nat
  | None => false
  end.

Section Main.
Context {lib : Pylib} {cfg : Config} {out : Outside}.

Definition sheets_service : M unit :=
  if String.eqb SHEET_ID "" then raise "Missing GOOGLE_SHEET_ID env var"
  else mret tt.

(** Step 3: the cells of NBA Game ID that need writing. *)
Definition writeback_data (nba_id_col_idx : nat) (refs : list row_ref)
  (espn_to_nba : gmap string string) : list cell_write :=
  omap (fun ref =>
          let existing := py_strip (nba_id_existing ref) in
          let nba_id := default "" (espn_to_nba !! espn_id ref) in
          if negb (String.eqb nba_id "") && negb (String.eqb nba_id existing)
          then Some (mk_cell_write TAB_COMPLETED
                       (TAB_COMPLETED +:+ "!" +:+ col_letters nba_id_col_idx
                          +:+ str_of_int (Z.of_nat (rownum ref)))
                       (rownum ref) nba_id_col_idx (PStr nba_id))
          else None)
       refs.

Fixpoint send_chunks (cs : list (list cell_write)) : M unit :=
  match cs with
  | [] => mret tt
  | c :: rest => _ ← batch_update c; send_chunks rest
  end.

(** Step 5: the games to process, newest first. *)
Definition candidates (info : list (string * game_info))
  (espn_to_nba : gmap string string) : list (string * datetime) :=
  let nba_games :=
    omap (fun e =>
            let nba_id := default "" (espn_to_nba !! fst e) in
            if String.eqb nba_id "" then None
            else Some (nba_id, gi_date (snd e)))
         info in
  stable_sort (fun y x => dt_ltb (snd x) (snd y)) nba_games.

(** The [try] of the loop body. *)
Definition build_row (nba_id : string) (dt_hint : datetime) (existing_key : string)
  : M (list pyval) :=
  try_except (fetch_adv_row nba_id (Some dt_hint) existing_key)
    (fun e => stamp ← now_iso; mret (error_row nba_id e stamp)).

Definition is_final (ix : adv_index) (nba_id : string) : bool :=
  row_truthy (gid_to_row ix !! nba_id)
  && String.eqb (default "" (gid_to_status ix !! nba_id)) "OK".

Definition record_row (ix : adv_index) (nba_id : string) (rowvals : list pyval)
  (st : loop_state) : loop_state :=
  let existing_row := gid_to_row ix !! nba_id in
  if row_truthy existing_row
  then mk_loop_state (processed st + 1)
         (updates st ++ [(default 0%nat existing_row, rowvals)]) (appends st)
  else mk_loop_state (processed st + 1) (updates st) (appends st ++ [rowvals]).

(** Step 6: the walk over the candidates. *)
Fixpoint walk (ix : adv_index) (nba_games : list (string * datetime))
  (st : loop_state) : M loop_state :=
  match nba_games with
  | [] => mret st
  | (nba_id, dt_hint) :: rest =>
      if MAX_GAMES_PER_RUN <=? processed st then mret st
      else if is_final ix nba_id then walk ix rest st
      else
        let existing_key := default "" (gid_to_key ix !! nba_id) in
        rowvals ← build_row nba_id dt_hint existing_key;
        let st := record_row ix nba_id rowvals st in
        j ← random_uniform 0 (6 # 10);
        _ ← time_sleep ((9 # 10) + j)%Q;
        walk ix rest st
  end.

Fixpoint apply_updates (last_col_letter : string)
  (ups : list (nat * list pyval)) : M unit :=
  match ups with
  | [] => mret tt
  | (rownum, vals) :: rest =>
      let n := str_of_int (Z.of_nat rownum) in
      _ ← update_values TAB_ADV ("A" +:+ n +:+ ":" +:+ last_col_letter +:+ n)
            rownum vals;
      apply_updates last_col_letter rest
  end.

(** Step 7 *)
Definition commit (st : loop_state) : M unit :=
  let last_col_letter := col_letters (length ADV_COLUMNS - 1) in
  _ ← apply_updates last_col_letter
        (stable_sort (fun y x => (fst y <? fst x)%nat) (updates st));
  match appends st with
  | [] => mret tt
  | _ :: _ => append_values TAB_ADV ("A:" +:+ last_col_letter) (appends st)
  end.

(** Steps 4 to 7, for the identifiers resolved in steps 1 to 3. *)
Definition upsert (info : list (string * game_info))
  (espn_to_nba : gmap string string) : M loop_state :=
  adv ← read_adv_index;
  st ← walk adv (candidates info espn_to_nba) (mk_loop_state 0 [] []);
  _ ← commit st;
  mret st.

Definition main : M outcome :=
  _ ← sheets_service;
  completed ← read_completed_index;
  match espn_to_info completed with
  | [] => mret NoRecentGames
  | _ :: _ =>
      espn_to_nba ← map_espn_to_nba (espn_to_info completed);
      if bool_decide (espn_to_nba = ∅) then mret NoMappings
      else
        nba_id_col_idx ← lift (dict_index (c_col completed) "NBA Game ID");
        _ ← send_chunks (chunks 200 (writeback_data nba_id_col_idx
                                       (row_refs completed) espn_to_nba));
        st ← upsert (espn_to_info completed) espn_to_nba;
        mret (Done st)
  end.

End Main.

(** ** A sample environment for the closed examples *)

Module Sample.

Definition digit_of (c : ascii) : option Z :=
  let n := N_of_ascii c in
  if ((48 <=? n) && (n <=? 57))%N then Some (Z.of_N n - 48) else None.

(** The alternatives of one numeric directive of [strptime], in the
    order in which the library tries them: two digits within the range
    first, then one digit. *)
Definition two_digits (lo hi : Z) (s : list ascii) : option (Z * list ascii) :=
  match s with
  | a :: b :: rest =>
      match digit_of a, digit_of b with
      | Some x, Some y =>
          let v := 10 * x + y in
          if (lo <=? v) && (v <=? hi) then Some (v, rest) else None
      | _, _ => None
      end
  | _ => None
  end.

Definition one_digit (lo : Z) (s : list ascii) : option (Z * list ascii) :=
  match s with
  | a :: rest =>
      match digit_of a with
      | Some x => if lo <=? x then Some (x, rest) else None
      | None => None
      end
  | [] => None
  end.

Definition number (lo hi : Z) (s : list ascii) : option (Z * list ascii) :=
  match two_digits lo hi s with
  | Some r => Some r
  | None => one_digit lo s
  end.

Definition four_digits (s : list ascii) : option (Z * list ascii) :=
  match s with
  | a :: b :: c :: d :: rest =>
      match digit_of a, digit_of b, digit_of c, digit_of d with
      | Some x, Some y, Some z, Some w =>
          Some (1000 * x + 100 * y + 10 * z + w, rest)
      | _, _, _, _ => None
      end
  | _ => None
  end.

Definition set_field (d : ascii) (v : Z) (t : datetime) : datetime :=
  if Ascii.eqb d "Y" then
    mk_datetime v (month t) (day t) (hour t) (minute t) (second t) 0
  else if Ascii.eqb d "m" then
    mk_datetime (year t) v (day t) (hour t) (minute t) (second t) 0
  else if Ascii.eqb d "d" then
    mk_datetime (year t) (month t) v (hour t) (minute t) (second t) 0
  else if Ascii.eqb d "H" then
    mk_datetime (year t) (month t) (day t) v (minute t) (second t) 0
  else if Ascii.eqb d "M" then
    mk_datetime (year t) (month t) (day t) (hour t) v (second t) 0
  else
    mk_datetime (year t) (month t) (day t) (hour t) (minute t) v 0.

Definition directive (d : ascii) (s : list ascii) : option (Z * list ascii) :=
  if Ascii.eqb d "Y" then four_digits s
  else if Ascii.eqb d "m" then number 1 12 s
  else if Ascii.eqb d "d" then number 1 31 s
  else if Ascii.eqb d "H" then number 0 23 s
  else if Ascii.eqb d "M" then number 0 59 s
  else if Ascii.eqb d "S" then number 0 61 s
  else None.

(** Matching a format against a text, for formats made of the
    directives Y m d H M S, spaces and literal characters. *)
Fixpoint strptime_match (fmt s : list ascii) (t : datetime) : option datetime :=
  match fmt with
  | [] => match s with [] => Some t | _ :: _ => None end
  | f :: fmt' =>
      if Ascii.eqb f "%" then
        match fmt' with
        | d :: fmt'' =>
            match directive d s with
            | Some (v, rest) => strptime_match fmt'' rest (set_field d v t)
            | None => None
            end
        | [] => None
        end
      else if is_space f then
        match s with
        | c :: rest =>
            if is_space c then strptime_match fmt' (lstrip rest) t else None
        | [] => None
        end
      else
        match s with
        | c :: rest => if Ascii.eqb c f then strptime_match fmt' rest t else None
        | [] => None
        end
  end.

Definition valid_datetime (t : datetime) : bool :=
  (1 <=? year t) && (day t <=? days_in_month (year t) (month t))
  && (second t <=? 59).

Definition sample_strptime (s fmt : string) : option datetime :=
  match strptime_match (chars fmt) (chars s) (mk_datetime 1900 1 1 0 0 0 0) with
  | Some t => if valid_datetime t then Some t else None
  | None => None
  end.

(** ISO texts of the two shapes written with a [T]. *)
Definition sample_fromisoformat (s : string) : option datetime :=
  match sample_strptime s "%Y-%m-%dT%H:%M:%S" with
  | Some t => Some t
  | None => sample_strptime s "%Y-%m-%dT%H:%M"
  end.

Fixpoint digits_value (acc : Z) (s : list ascii) : option Z :=
  match s with
  | [] => Some acc
  | c :: rest =>
      match digit_of c with
      | Some d => digits_value (10 * acc + d) rest
      | None => None
      end
  end.

(** [float] on the text of a decimal integer; other texts are refused,
    and the examples hold no other numeric text. *)
Definition sample_float_of_str (s : string) : option spec_float :=
  match strip (chars s) with
  | [] => None
  | c :: rest =>
      if Ascii.eqb c "-" then
        match rest with
        | [] => None
        | _ :: _ => match digits_value 0 rest with
                    | Some v => float_of_int (- v)
                    | None => None
                    end
        end
      else match digits_value 0 (c :: rest) with
           | Some v => float_of_int v
           | None => None
           end
  end.

(** [repr] of the floats that are whole numbers; the examples print no
    other float. *)
Definition sample_float_repr (f : spec_float) : string :=
  match f with
  | S754_nan => "nan"
  | S754_infinity false => "inf"
  | S754_infinity true => "-inf"
  | S754_zero false => "0.0"
  | S754_zero true => "-0.0"
  | S754_finite sign m e =>
      (if sign then "-" else "")
        +:+ str_of_int (if 0 <=? e then Z.pos m * 2 ^ e else Z.pos m / 2 ^ (- e))
        +:+ ".0"
  end.

#[global] Instance sample_lib : Pylib := {|
  float_of_str := sample_float_of_str;
  float_repr := sample_float_repr;
  strptime := sample_strptime;
  fromisoformat := sample_fromisoformat
|}.

(** The defaults of the configuration. *)
#[global] Instance default_config : Config := {|
  SHEET_ID := "sheet-1";
  TAB_COMPLETED := "NBA_COMPLETED_GAMES";
  TAB_ADV := "ADV_GAME_STATS";
  LOOKBACK_DAYS := 60;
  MAX_GAMES_PER_RUN := 12;
  REQ_TIMEOUT := 45;
  MAX_TRIES := 8;
  SLEEP_BASE := 5 # 4
|}.

(** A configuration whose back-off base is negative. *)
Definition negative_base_config : Config := {|
  SHEET_ID := "sheet-1";
  TAB_COMPLETED := "NBA_COMPLETED_GAMES";
  TAB_ADV := "ADV_GAME_STATS";
  LOOKBACK_DAYS := 60;
  MAX_GAMES_PER_RUN := 12;
  REQ_TIMEOUT := 45;
  MAX_TRIES := 8;
  SLEEP_BASE := -2 # 1
|}.

Definition world_of (sheets : gmap string (list (list pyval))) : World :=
  mk_world 0 0 0 [] sheets.

Definition noon (y m d : Z) : datetime := mk_datetime y m d 12 0 0 0.

(** A clock that stands at noon of 4 November 2026. *)
Definition clock_day : datetime := noon 2026 11 4.
Definition clock_iso : string := "2026-11-04T12:00:00+00:00".

Definition team_stats (headers : list string) (rows : list (list pyval))
  : json_body :=
  mk_json (Some [Some (mk_resultset "TeamStats" (Some headers) (Some rows))]).

Definition ok_response (j : json_body) : HttpOutcome := Response 200 "" (Ok j).

(** An outside world that answers the k-th request with the k-th entry
    of a script (and times out afterwards), with a fixed clock. *)
Definition scripted (replies : list HttpOutcome) : Outside := {|
  http_reply := fun k _ _ => nth k replies (NetError "timed out");
  random_bits := fun k => (N.of_nat k * 1000003)%N;
  now_at := fun _ => clock_day;
  now_iso_at := fun _ => clock_iso
|}.

End Sample.

(** A small sheet for the examples on header rows. *)
Definition header_demo_world : World :=
  Sample.world_of (<["T" := [[PStr "Team"; PStr " Game Date "]; [PStr "Lakers"]]]> ∅).

Definition header_demo_index : gmap string nat :=
  match @ensure_headers Sample.sample_lib "T" ["Team"; "NBA Game ID"]
          header_demo_world with
  | (Ok col, _) => col
  | (Raise _, _) => ∅
  end.

(** ** The trigger endpoint ([main.py]) *)

(** What [subprocess.run] returns. *)
Record completed_process : Type := mk_completed_process {
  returncode : Z; stdout : string; stderr : string
}.

(** The JSON body of the answer of [/run]. *)
Inductive job_body : Type :=
| JobReport (ok : bool) (rc : Z) (out err : string)
| JobError (ok : bool) (error : string).

(** [s[-n:]] for a positive [n]: the last [n] characters, or all of [s]
    when it is shorter. *)
Definition py_last (n : nat) (s : string) : string :=
  str (drop (length (chars s) - n) (chars s)).

(** [run_job], given what running the job did: it returned a finished
    process or raised. *)
Definition run_job (r : result completed_process) : job_body * Z :=
  match r with
  | Ok p =>
      (JobReport (returncode p =? 0) (returncode p)
                 (py_last 4000 (stdout p)) (py_last 4000 (stderr p)),
       if returncode p =? 0 then 200 else 500)
  | Raise e => (JobError false e, 500)
  end.

Definition body_ok (b : job_body) : bool :=
  match b with
  | JobReport ok _ _ _ => ok
  | JobError ok _ => ok
  end.

(** ** Predicates used by the proofs *)

(** Whether the text read so far ends on white space; [b] is the answer
    for the text before [s]. *)
Fixpoint end_flag (b : bool) (s : list ascii) : bool :=
  match s with
  | [] => b
  | c :: s' => end_flag (is_space c) s'
  end.

(** Every white-space character is a plain space and no space follows
    another one ([prev] tells that the previous character was a space). *)
Fixpoint single_spaced (prev : bool) (s : list ascii) : Prop :=
  match s with
  | [] => True
  | c :: s' =>
      if is_space c
      then c = " "%char /\ prev = false /\ single_spaced true s'
      else single_spaced false s'
  end.

(** The shape of a normalized name: no leading or trailing space, single
    spaces only, all characters already lower case. *)
Definition tidy (s : list ascii) : Prop :=
  single_spaced true s /\ end_flag false s = false
  /\ Forall (fun c => lower_char c = c) s.

(** No position of [new] lets an occurrence of [q] begin there and run
    to, or past, the end of [new]. *)
Definition border_free (q new : list ascii) : bool :=
  forallb (fun i => negb (starts_with q (drop i new))
                    && negb (starts_with (drop i new) q))
          (seq 0 (length new)).

(** No proper suffix of [w] is a prefix of [new]. *)
Definition overlap_free (w new : list ascii) : bool :=
  forallb (fun j => negb (starts_with (drop j w) new)) (seq 0 (length w)).

(** What [replace("\u00a0", " ")] does to one character. *)
Definition nbsp_to_space (c : ascii) : ascii :=
  if Ascii.eqb nbsp c then " "%char else c.

Definition head_not_space (s : list ascii) : Prop :=
  match s with [] => True | c :: _ => is_space c = false end.

(** The two entries of the alias table. *)
Definition clippers_old := chars "la clippers".
Definition clippers_new := chars "los angeles clippers".
Definition lakers_old := chars "la lakers".
Definition lakers_new := chars "los angeles lakers".


Section FetchTrace.
Context {cfg : Config} {out : Outside}.

(** Why an attempt of [nba_fetch] does not end the loop: the text kept
    in [last_err], or [None] for an attempt that returns. *)
Definition attempt_failure (r : HttpOutcome) : option string :=
  match r with
  | NetError e => Some e
  | Response status text json =>
      if status =? 200 then
        match json with
        | Ok _ => None
        | Raise e => Some e
        end
      else Some ("NBA HTTP " +:+ str_of_int status +:+ ": " +:+ py_take 250 text)
  end.

(** The jitter drawn with the k-th random number. *)
Definition jitter_at (k : nat) : Q := uniform_of 0 (1 # 2) (unit_draw k).

(** What [k] failed attempts leave in the log: a request and a sleep
    each, the first with attempt number [i] and random draw [d]. *)
Fixpoint failed_attempts_log (url : string) (params : params_t)
  (k : nat) (i : Z) (d : nat) : list Event :=
  match k with
  | O => []
  | S k' =>
      Requested url params :: Slept (backoff i + jitter_at d)%Q
        :: failed_attempts_log url params k' (i + 1) (S d)
  end.

End FetchTrace.

(** The failure left in [last_err] after [n] failed attempts that began
    at request number [base]. *)
Definition last_failure {out : Outside} (url : string) (params : params_t)
  (base n : nat) (last : option string) : option string :=
  match n with
  | O => last
  | S n' => attempt_failure (http_reply (base + n') url params)
  end.

(** The text [str(r[mi] or "")] that [pick_home_away] reads in a row. *)
Definition matchup_text {lib : Pylib} (r : list pyval) (mi : nat) : string :=
  match r !! mi with
  | Some c => py_str (or_empty c)
  | None => ""
  end.

(** Groups keyed by [key]: each key once, no empty group, every member
    under its own key. *)
Definition well_grouped {A : Type} (key : A -> string)
  (groups : list (string * list A)) : Prop :=
  NoDup (map fst groups)
  /\ Forall (fun kg => snd kg <> [] /\ Forall (fun e => key e = fst kg) (snd kg))
            groups.
(** * Properties *)

(** ** Column letters *)

Lemma append_cons c s t : String c s +:+ t = String c (s +:+ t).
Proof. reflexivity. Qed.

Lemma append_empty_l s : "" +:+ s = s.
Proof. reflexivity. Qed.

Lemma letters_value_app acc s t :
  letters_value acc (s +:+ t) = letters_value (letters_value acc s) t.
Proof.
  revert acc. induction s as [|c s IH]; intros acc; [reflexivity|].
  rewrite append_cons. simpl. apply IH.
Qed.

Lemma append_snoc pre c s : (pre +:+ String c "") +:+ s = pre +:+ String c s.
Proof.
  induction pre as [|d pre IH]; [reflexivity|].
  now rewrite !append_cons, IH.
Qed.

Lemma append_empty_r s : s +:+ "" = s.
Proof.
  induction s as [|d s IH]; [reflexivity|]. now rewrite append_cons, IH.
Qed.

Lemma col_to_a1_loop_spec fuel : forall n s,
  0 <= n <= Z.of_nat fuel ->
  exists pre, col_to_a1_loop fuel n s = Some (pre +:+ s)
              /\ letters_value 0 pre = n.
Proof.
  induction fuel as [|fuel IH]; intros n s Hn.
  - assert (n = 0) by lia. subst. exists "". split; reflexivity.
  - cbn [col_to_a1_loop]. destruct (Z.eqb_spec n 0) as [->|Hnz].
    + exists "". split; reflexivity.
    + assert (Hr : 0 <= (n - 1) mod 26 < 26) by (apply Z.mod_pos_bound; lia).
      assert (Hq : 0 <= (n - 1) / 26 <= Z.of_nat fuel).
      { split; [apply Z.div_pos; lia|].
        apply Z.le_trans with (n - 1); [|lia].
        apply Z.div_le_upper_bound; lia. }
      destruct (IH _ (String (ascii_of_N (Z.to_N (65 + (n - 1) mod 26))) s) Hq)
        as (pre & Hrun & Hval).
      exists (pre +:+ String (ascii_of_N (Z.to_N (65 + (n - 1) mod 26))) "").
      split.
      * cbv zeta. rewrite Hrun. now rewrite append_snoc.
      * rewrite letters_value_app, Hval. simpl.
        rewrite N_ascii_embedding by lia.
        rewrite Z2N.id by lia.
        pose proof (Z.div_mod (n - 1) 26 ltac:(lia)). lia.
Qed.

Lemma col_to_a1_round_trip i :
  0 <= i ->
  exists s, col_to_a1 i = Some s /\ index_from_letter s = i.
Proof.
  intros Hi. unfold col_to_a1, index_from_letter.
  destruct (col_to_a1_loop_spec (Z.to_nat (i + 1)) (i + 1) "") as (pre & Hrun & Hval);
    [lia|].
  exists pre. split; [|lia].
  now rewrite Hrun, append_empty_r.
Qed.

(** C9: column letters are bijective base 26: 0, 25 and 26 give A, Z and
    AA; for every non-negative index the loop finishes, the inverse
    conversion gives the index back, and two different non-negative indices
    never share their letters. *)
Theorem col_to_a1_bijective_base26 :
  col_to_a1 0 = Some "A" /\ col_to_a1 25 = Some "Z" /\ col_to_a1 26 = Some "AA"
  /\ (forall i, 0 <= i ->
        exists s, col_to_a1 i = Some s /\ index_from_letter s = i)
  /\ (forall i j, 0 <= i -> 0 <= j -> col_to_a1 i = col_to_a1 j -> i = j).
Proof.
  split; [reflexivity|]. split; [reflexivity|]. split; [reflexivity|].
  split; [exact col_to_a1_round_trip|].
  intros i j Hi Hj Heq.
  destruct (col_to_a1_round_trip i Hi) as (s & Hs & Hsi).
  destruct (col_to_a1_round_trip j Hj) as (t & Ht & Htj).
  rewrite Hs, Ht in Heq. injection Heq as ->. congruence.
Qed.

Lemma col_to_a1_bijective_base26_witness :
  (exists s, col_to_a1 701 = Some s /\ index_from_letter s = 701)
  /\ (col_to_a1 27 = col_to_a1 27 -> 27 = 27).
Proof.
  destruct col_to_a1_bijective_base26 as (_ & _ & _ & Hrt & Hinj).
  split.
  - apply Hrt. lia.
  - apply Hinj; lia.
Defined.

(** ** Team-name normalization *)

Section StartsWith.

Lemma starts_with_app_eq p s :
  starts_with p s = true -> s = p ++ drop (length p) s.
Proof.
  revert s. induction p as [|a p IH]; intros [|b s] H; simpl in *;
    try reflexivity; try discriminate.
  apply andb_true_iff in H as [Hab Hp].
  apply Ascii.eqb_eq in Hab as ->. f_equal. now apply IH.
Qed.

Lemma starts_with_refl_app p s : starts_with p (p ++ s) = true.
Proof.
  induction p as [|a p IH]; simpl; [reflexivity|].
  now rewrite Ascii.eqb_refl, IH.
Qed.

(** A prefix of [x ++ y] either lies inside [x] or covers all of [x]. *)
Lemma starts_with_app_split q x y :
  starts_with q (x ++ y) = true ->
  starts_with q x = true \/ starts_with x q = true.
Proof.
  revert x. induction q as [|a q IH]; intros [|b x] H; simpl in *; auto.
  apply andb_true_iff in H as [Hab Hq]. rewrite Hab.
  apply Ascii.eqb_eq in Hab as ->. rewrite Ascii.eqb_refl. simpl.
  now apply IH.
Qed.

Lemma starts_with_app_short w x y :
  (length w <= length x)%nat ->
  starts_with w (x ++ y) = true -> starts_with w x = true.
Proof.
  revert x. induction w as [|a w IH]; intros [|b x] Hlen H; simpl in *;
    try reflexivity; try lia.
  apply andb_true_iff in H as [Hab Hw]. rewrite Hab. simpl.
  apply IH; [lia|assumption].
Qed.

Lemma contains_cons q c s :
  contains q (c :: s) = starts_with q (c :: s) || contains q s.
Proof. reflexivity. Qed.

Lemma contains_app_false q x y :
  (forall i, (i < length x)%nat -> starts_with q (drop i x ++ y) = false) ->
  contains q y = false ->
  contains q (x ++ y) = false.
Proof.
  induction x as [|c x IH]; intros Hx Hy; [exact Hy|].
  change ((c :: x) ++ y) with (c :: (x ++ y)). rewrite contains_cons.
  apply orb_false_iff. split.
  - apply (Hx 0%nat). simpl. lia.
  - apply IH; [|exact Hy]. intros i Hi. apply (Hx (S i)). simpl. lia.
Qed.

Lemma contains_app_r q x y :
  contains q (x ++ y) = false -> contains q y = false.
Proof.
  induction x as [|c x IH]; [auto|].
  change ((c :: x) ++ y) with (c :: (x ++ y)). rewrite contains_cons.
  intros H. apply orb_false_iff in H as [_ H]. auto.
Qed.

End StartsWith.

(** *** [str.replace] by induction on its scan *)

Section Replace.

Variables old new : list ascii.
Hypothesis old_nonempty : old <> [].

Lemma replace_from_skip k s :
  replace_from old new k s = replace_from old new 0 (drop k s).
Proof.
  revert k. induction s as [|c s IH]; intros [|k]; try reflexivity.
  simpl. apply IH.
Qed.

Lemma replace_hit s :
  starts_with old s = true ->
  replace old new s = new ++ replace old new (drop (length old) s).
Proof.
  intros H. unfold replace. destruct s as [|c s].
  - destruct old; [congruence|discriminate].
  - cbn [replace_from]. rewrite H, replace_from_skip.
    destruct old as [|a old']; [congruence|reflexivity].
Qed.

Lemma replace_miss c s :
  starts_with old (c :: s) = false ->
  replace old new (c :: s) = c :: replace old new s.
Proof. intros H. unfold replace. cbn [replace_from]. now rewrite H. Qed.

(** The induction principle of the scan: an input and its output are
    built together, occurrence by occurrence and character by
    character. *)
Lemma replace_scan_ind (P : list ascii -> list ascii -> Prop) :
  P [] [] ->
  (forall rest r, r = replace old new rest -> P rest r ->
                  P (old ++ rest) (new ++ r)) ->
  (forall c s r, r = replace old new s ->
                 starts_with old (c :: s) = false -> P s r ->
                 P (c :: s) (c :: r)) ->
  forall s, P s (replace old new s).
Proof.
  intros Hnil Hhit Hmiss s.
  remember (length s) as n eqn:Hn. revert s Hn.
  induction n as [n IH] using lt_wf_ind. intros s Hn.
  destruct s as [|c s]; [exact Hnil|].
  destruct (starts_with old (c :: s)) eqn:Hsw.
  - rewrite (replace_hit _ Hsw).
    rewrite (starts_with_app_eq _ _ Hsw) at 1.
    apply Hhit; [reflexivity|]. eapply IH; [|reflexivity].
    subst n. rewrite length_drop.
    destruct old; [congruence|]. simpl. lia.
  - rewrite (replace_miss _ _ Hsw). apply Hmiss; [reflexivity|exact Hsw|].
    eapply IH; [|reflexivity]. subst n. simpl. lia.
Qed.

Lemma replace_absent s :
  contains old s = false -> replace old new s = s.
Proof.
  apply (replace_scan_ind (fun s r => contains old s = false -> r = s)).
  - reflexivity.
  - intros rest r _ _ H. exfalso.
    destruct old as [|a o] eqn:E; [congruence|].
    change ((a :: o) ++ rest) with (a :: (o ++ rest)) in H.
    rewrite contains_cons in H. apply orb_false_iff in H as [H _].
    change (a :: (o ++ rest)) with ((a :: o) ++ rest) in H.
    now rewrite starts_with_refl_app in H.
  - intros c s0 r _ _ IH H. rewrite contains_cons in H.
    apply orb_false_iff in H as [_ H]. f_equal. auto.
Qed.

Lemma replace_Forall (P : ascii -> Prop) s :
  Forall P new -> Forall P s -> Forall P (replace old new s).
Proof.
  intros Hnew.
  apply (replace_scan_ind (fun s r => Forall P s -> Forall P r)).
  - auto.
  - intros rest r _ IH H. apply Forall_app in H as [_ H].
    apply Forall_app. auto.
  - intros c s0 r _ _ IH H. inversion H; subst. constructor; auto.
Qed.

(** A short prefix of the output is a prefix of the input, unless it
    runs into an inserted [new]. *)
Lemma replace_prefix_origin s : forall w,
  (length w <= length new)%nat ->
  starts_with w (replace old new s) = true ->
  starts_with w s = true
  \/ exists j, (j < length w)%nat /\ starts_with (drop j w) new = true.
Proof.
  apply (replace_scan_ind (fun s r => forall w,
    (length w <= length new)%nat -> starts_with w r = true ->
    starts_with w s = true
    \/ exists j, (j < length w)%nat /\ starts_with (drop j w) new = true)).
  - intros w _ H. now left.
  - intros rest r _ _ w Hlen H.
    apply starts_with_app_short in H; [|exact Hlen].
    destruct w as [|a w]; [now left|].
    right. exists 0%nat. split; [simpl; lia|exact H].
  - intros c s0 r _ _ IH [|a w] Hlen H; [now left|].
    simpl in H. apply andb_true_iff in H as [Hac Hw].
    destruct (IH w) as [Hl|(j & Hj & Hr)]; [simpl in Hlen; lia|exact Hw| |].
    + left. simpl. now rewrite Hac, Hl.
    + right. exists (S j). split; [simpl; lia|exact Hr].
Qed.

(** No occurrence of [q] survives or appears: [q] is either the
    replaced string itself or absent from the input. *)
Lemma replace_no_new_occurrence q w a s :
  q = a :: w ->
  (length w <= length new)%nat ->
  border_free q new = true ->
  overlap_free w new = true ->
  q = old \/ contains q s = false ->
  contains q (replace old new s) = false.
Proof.
  intros Hq Hlen Hborder Hover.
  unfold border_free in Hborder. unfold overlap_free in Hover.
  rewrite forallb_forall in Hborder, Hover.
  apply (replace_scan_ind (fun s r =>
    q = old \/ contains q s = false -> contains q r = false)).
  - intros _. subst q. reflexivity.
  - intros rest r _ IH Hin. apply contains_app_false.
    + intros i Hi.
      destruct (starts_with q (drop i new ++ r)) eqn:E; [|reflexivity].
      exfalso. specialize (Hborder i).
      rewrite in_seq in Hborder.
      specialize (Hborder ltac:(lia)).
      apply andb_true_iff in Hborder as [H1 H2].
      apply starts_with_app_split in E as [E|E]; rewrite E in *; discriminate.
    + apply IH. destruct Hin as [Hin|Hin]; [now left|right].
      eapply contains_app_r; exact Hin.
  - intros c s0 r Hr Hmiss IH Hin. rewrite contains_cons.
    apply orb_false_iff. split.
    + destruct (starts_with q (c :: r)) eqn:E; [|reflexivity]. exfalso.
      subst q r. simpl in E. apply andb_true_iff in E as [Eac Ew].
      destruct (replace_prefix_origin s0 w Hlen Ew) as [Hl|(j & Hj & Hr)].
      * assert (Hs : starts_with (a :: w) (c :: s0) = true)
          by (simpl; now rewrite Eac, Hl).
        destruct Hin as [Hin|Hin].
        -- rewrite Hin in Hs. congruence.
        -- rewrite contains_cons, Hs in Hin. discriminate.
      * specialize (Hover j). rewrite in_seq in Hover.
        specialize (Hover ltac:(lia)). rewrite Hr in Hover. discriminate.
    + apply IH. destruct Hin as [Hin|Hin]; [now left|right].
      rewrite contains_cons in Hin. now apply orb_false_iff in Hin as [_ Hin].
Qed.

End Replace.

(** *** White space and case *)

Lemma ascii_cases (P : ascii -> Prop) :
  (forall b0 b1 b2 b3 b4 b5 b6 b7 : bool, P (Ascii b0 b1 b2 b3 b4 b5 b6 b7)) ->
  forall c, P c.
Proof. intros H [b0 b1 b2 b3 b4 b5 b6 b7]. apply H. Qed.

Ltac by_ascii_table c :=
  pattern c; apply ascii_cases;
  intros [] [] [] [] [] [] [] []; vm_compute; try reflexivity; try congruence.

Lemma lower_char_space c : is_space (lower_char c) = is_space c.
Proof. by_ascii_table c. Qed.

Lemma nbsp_to_space_space c : is_space (nbsp_to_space c) = is_space c.
Proof. by_ascii_table c. Qed.

Lemma lower_nbsp_lower c :
  lower_char (nbsp_to_space (lower_char c)) = nbsp_to_space (lower_char c).
Proof. by_ascii_table c. Qed.

Lemma replace_nbsp s : replace [nbsp] [" "%char] s = map nbsp_to_space s.
Proof.
  unfold replace. induction s as [|c s IH]; [reflexivity|].
  cbn [replace_from starts_with map]. unfold nbsp_to_space at 1.
  destruct (Ascii.eqb nbsp c); simpl; now rewrite IH.
Qed.

Lemma end_flag_app b x y : end_flag b (x ++ y) = end_flag (end_flag b x) y.
Proof. revert b. induction x as [|c x IH]; intros b; simpl; auto. Qed.

Lemma end_flag_map f b s :
  (forall c, is_space (f c) = is_space c) ->
  end_flag b (map f s) = end_flag b s.
Proof.
  intros Hf. revert b. induction s as [|c s IH]; intros b; simpl; [reflexivity|].
  now rewrite Hf, IH.
Qed.

Lemma end_flag_sub_spaces b s : end_flag b (sub_spaces b s) = end_flag b s.
Proof.
  revert b. induction s as [|c s IH]; intros b; [reflexivity|].
  cbn [sub_spaces end_flag]. destruct (is_space c) eqn:Hc.
  - destruct b; cbn [end_flag]; [apply IH|].
    change (is_space " ") with true. apply IH.
  - cbn [end_flag]. rewrite Hc. apply IH.
Qed.

Lemma single_spaced_app b x y :
  single_spaced b (x ++ y) <->
  single_spaced b x /\ single_spaced (end_flag b x) y.
Proof.
  revert b. induction x as [|c x IH]; intros b; simpl; [tauto|].
  destruct (is_space c); rewrite IH; tauto.
Qed.

Lemma single_spaced_weaken b s : single_spaced true s -> single_spaced b s.
Proof.
  destruct s as [|c s]; simpl; [auto|].
  destruct (is_space c); [intros (_ & H & _); discriminate|auto].
Qed.

Lemma single_spaced_sub_spaces b s : single_spaced b (sub_spaces b s).
Proof.
  revert b. induction s as [|c s IH]; intros b; [exact I|].
  cbn [sub_spaces]. destruct (is_space c) eqn:Hc.
  - destruct b; [apply IH|]. cbn [single_spaced].
    change (is_space " ") with true. cbv iota. auto.
  - cbn [single_spaced]. rewrite Hc. apply IH.
Qed.

Lemma sub_spaces_fixed b s : single_spaced b s -> sub_spaces b s = s.
Proof.
  revert b. induction s as [|c s IH]; intros b H; [reflexivity|].
  cbn [sub_spaces single_spaced] in *. destruct (is_space c).
  - destruct H as (-> & -> & H). f_equal. auto.
  - f_equal. auto.
Qed.

Lemma sub_spaces_head s :
  single_spaced true (sub_spaces true s) ->
  match s with [] => True | c :: _ => is_space c = false end ->
  sub_spaces false s = sub_spaces true s.
Proof.
  destruct s as [|c s]; [reflexivity|]. intros _ Hc.
  cbn [sub_spaces]. now rewrite Hc.
Qed.

Lemma Forall_sub_spaces (P : ascii -> Prop) b s :
  P " "%char -> Forall P s -> Forall P (sub_spaces b s).
Proof.
  intros Hsp H. revert b. induction H as [|c s Hc Hs IH]; intros b; [constructor|].
  cbn [sub_spaces]. destruct (is_space c); [destruct b|]; auto.
Qed.

(** *** [str.strip] *)

Lemma lstrip_head s : head_not_space (lstrip s).
Proof.
  induction s as [|c s IH]; [exact I|]. simpl.
  destruct (is_space c) eqn:Hc; [exact IH|exact Hc].
Qed.

Lemma lstrip_suffix s : exists pre, s = pre ++ lstrip s.
Proof.
  induction s as [|c s [pre IH]]; [now exists []|]. simpl.
  destruct (is_space c); [|now exists []].
  exists (c :: pre). simpl. now f_equal.
Qed.

Lemma lstrip_fixed s : head_not_space s -> lstrip s = s.
Proof. destruct s as [|c s]; simpl; [auto|]. now intros ->. Qed.

Lemma end_flag_rev_head s : head_not_space s -> end_flag false (rev s) = false.
Proof.
  destruct s as [|c s]; [reflexivity|]. simpl. intros Hc.
  now rewrite end_flag_app.
Qed.

Lemma head_rev_end_flag s : end_flag false s = false -> head_not_space (rev s).
Proof.
  destruct s as [|c s] using rev_ind; [intros; exact I|].
  rewrite end_flag_app, rev_app_distr. simpl. auto.
Qed.

Lemma rstrip_prefix s : exists post, s = rstrip s ++ post.
Proof.
  unfold rstrip. destruct (lstrip_suffix (rev s)) as [pre H].
  exists (rev pre). rewrite <- rev_app_distr, <- H. now rewrite rev_involutive.
Qed.

Lemma strip_head s : head_not_space (strip s).
Proof.
  unfold strip. pose proof (lstrip_head s) as H.
  destruct (rstrip_prefix (lstrip s)) as [post E].
  destruct (rstrip (lstrip s)) as [|c r]; [exact I|].
  rewrite E in H. exact H.
Qed.

Lemma strip_end s : end_flag false (strip s) = false.
Proof. unfold strip, rstrip. apply end_flag_rev_head, lstrip_head. Qed.

Lemma strip_fixed s :
  head_not_space s -> end_flag false s = false -> strip s = s.
Proof.
  intros Hh He. unfold strip. rewrite (lstrip_fixed _ Hh).
  unfold rstrip. rewrite lstrip_fixed; [apply rev_involutive|].
  now apply head_rev_end_flag.
Qed.

(** *** Normal forms *)

Lemma tidy_head s : tidy s -> head_not_space s.
Proof.
  intros (H & _). destruct s as [|c s]; [exact I|]. simpl in *.
  destruct (is_space c); [destruct H as (_ & H & _); discriminate|reflexivity].
Qed.

Lemma single_spaced_no_nbsp b s :
  single_spaced b s -> contains [nbsp] s = false.
Proof.
  revert b. induction s as [|c s IH]; intros b H; [reflexivity|].
  rewrite contains_cons. cbn [starts_with single_spaced] in *.
  destruct (Ascii.eqb_spec nbsp c) as [<-|_].
  - change (is_space nbsp) with true in H. cbv iota in H.
    destruct H as (H & _). discriminate.
  - simpl. destruct (is_space c); [destruct H as (_ & _ & H)|]; eauto.
Qed.

(** The steps before the alias table leave a tidy string. *)
Lemma tidy_after_spaces s :
  tidy (sub_spaces false (replace [nbsp] [" "%char] (lower (strip s)))).
Proof.
  rewrite replace_nbsp. unfold lower. rewrite map_map.
  set (f := fun c => nbsp_to_space (lower_char c)).
  assert (Hf : forall c, is_space (f c) = is_space c)
    by (intros c; unfold f; now rewrite nbsp_to_space_space, lower_char_space).
  assert (Hhead : head_not_space (map f (strip s))).
  { pose proof (strip_head s) as H. destruct (strip s); [exact I|].
    simpl in *. now rewrite Hf. }
  assert (Heq : sub_spaces false (map f (strip s))
                = sub_spaces true (map f (strip s))).
  { destruct (map f (strip s)) as [|c u]; [reflexivity|].
    cbn [sub_spaces]. simpl in Hhead. now rewrite Hhead. }
  split; [|split].
  - rewrite Heq. apply single_spaced_sub_spaces.
  - rewrite end_flag_sub_spaces, end_flag_map by exact Hf. apply strip_end.
  - apply Forall_sub_spaces; [reflexivity|].
    apply Forall_map, Forall_forall. intros c _. apply lower_nbsp_lower.
Qed.

(** A tidy string passes the steps before the alias table unchanged. *)
Lemma tidy_fixed s :
  tidy s -> sub_spaces false (replace [nbsp] [" "%char] (lower (strip s))) = s.
Proof.
  intros Ht. pose proof (tidy_head _ Ht) as Hh.
  destruct Ht as (Hs & He & Hl).
  rewrite (strip_fixed _ Hh He).
  assert (Hlow : lower s = s).
  { clear -Hl. unfold lower. induction Hl as [|c u Hc Hu IH]; [reflexivity|].
    simpl. now rewrite Hc, IH. }
  rewrite Hlow.
  rewrite replace_absent; [|discriminate|now apply single_spaced_no_nbsp with true].
  apply sub_spaces_fixed. now apply single_spaced_weaken.
Qed.

Section AliasReplace.

Variables old new : list ascii.
Hypothesis old_nonempty : old <> [].
Hypothesis old_end : forall b, end_flag b old = false.
Hypothesis new_end : forall b, end_flag b new = false.
Hypothesis new_spaced : single_spaced true new.
Hypothesis new_lower : Forall (fun c => lower_char c = c) new.

Lemma replace_single_spaced s b :
  single_spaced b s -> single_spaced b (replace old new s).
Proof.
  revert b.
  apply (replace_scan_ind old new old_nonempty (fun s r =>
    forall b, single_spaced b s -> single_spaced b r)).
  - auto.
  - intros rest r _ IH b H.
    apply single_spaced_app in H as [_ H]. rewrite old_end in H.
    apply single_spaced_app. split; [now apply single_spaced_weaken|].
    rewrite new_end. auto.
  - intros c s0 r _ _ IH b H. simpl in *.
    destruct (is_space c); [destruct H as (? & ? & ?)|]; auto.
Qed.

Lemma replace_end_flag s b :
  end_flag b (replace old new s) = end_flag b s.
Proof.
  revert b.
  apply (replace_scan_ind old new old_nonempty (fun s r =>
    forall b, end_flag b r = end_flag b s)).
  - reflexivity.
  - intros rest r _ IH b. now rewrite !end_flag_app, old_end, new_end.
  - intros c s0 r _ _ IH b. simpl. apply IH.
Qed.

Lemma replace_tidy s : tidy s -> tidy (replace old new s).
Proof.
  intros (Hs & He & Hl). split; [|split].
  - now apply replace_single_spaced.
  - now rewrite replace_end_flag.
  - now apply replace_Forall.
Qed.

End AliasReplace.

Ltac alias_side :=
  first [ discriminate
        | intros []; reflexivity
        | vm_compute; tauto
        | repeat constructor ].

Lemma clippers_tidy s : tidy s -> tidy (replace clippers_old clippers_new s).
Proof. apply replace_tidy; alias_side. Qed.

Lemma lakers_tidy s : tidy s -> tidy (replace lakers_old lakers_new s).
Proof. apply replace_tidy; alias_side. Qed.

(** The output of the alias table holds neither shorthand any more. *)
Lemma aliases_absent s :
  let t := replace lakers_old lakers_new (replace clippers_old clippers_new s) in
  contains clippers_old t = false /\ contains lakers_old t = false.
Proof.
  cbv zeta. split.
  - eapply (replace_no_new_occurrence lakers_old lakers_new ltac:(discriminate)
              clippers_old); try reflexivity; [vm_compute; lia|].
    right.
    eapply (replace_no_new_occurrence clippers_old clippers_new
              ltac:(discriminate) clippers_old);
      try reflexivity; [vm_compute; lia|now left].
  - eapply (replace_no_new_occurrence lakers_old lakers_new ltac:(discriminate)
              lakers_old); try reflexivity; [vm_compute; lia|now left].
Qed.

Lemma normalize_chars_tidy s : tidy (normalize_chars s).
Proof.
  unfold normalize_chars. apply lakers_tidy, clippers_tidy, tidy_after_spaces.
Qed.

Lemma normalize_chars_idempotent s :
  normalize_chars (normalize_chars s) = normalize_chars s.
Proof.
  pose proof (normalize_chars_tidy s) as Ht.
  assert (Habs : contains clippers_old (normalize_chars s) = false
                 /\ contains lakers_old (normalize_chars s) = false)
    by apply aliases_absent.
  destruct Habs as [Hc Hl].
  unfold normalize_chars at 1. cbv zeta.
  rewrite (tidy_fixed _ Ht).
  fold clippers_old clippers_new lakers_old lakers_new.
  rewrite (replace_absent clippers_old clippers_new ltac:(discriminate) _ Hc).
  now rewrite (replace_absent lakers_old lakers_new ltac:(discriminate) _ Hl).
Qed.


(** ** The resilient fetcher *)

Section Fetcher.
Context {cfg : Config} {out : Outside}.

Lemma unit_draw_shape k :
  exists x : Z, unit_draw k = (x # 2 ^ 53) /\ 0 <= x < Z.pos (2 ^ 53).
Proof.
  unfold unit_draw.
  assert (H : (random_bits k mod 2 ^ 53 < 2 ^ 53)%N)
    by (apply N.mod_upper_bound; discriminate).
  apply N2Z.inj_lt in H.
  change (Z.of_N (2 ^ 53)) with (Z.pos (2 ^ 53)) in H.
  pose proof (N2Z.is_nonneg (random_bits k mod 2 ^ 53)) as H0.
  eexists. split; [reflexivity|]. lia.
Qed.

Lemma unit_draw_bounds k : (0 <= unit_draw k)%Q /\ (unit_draw k < 1)%Q.
Proof.
  destruct (unit_draw_shape k) as (x & -> & Hx).
  split.
  - unfold Qle. cbn [Qnum Qden]. lia.
  - unfold Qlt. cbn [Qnum Qden]. lia.
Qed.

Lemma jitter_bounds k : (0 <= jitter_at k)%Q /\ (jitter_at k < 1 # 2)%Q.
Proof.
  unfold jitter_at, uniform_of.
  destruct (unit_draw_shape k) as (x & -> & Hx).
  remember (2 ^ 53)%positive as d eqn:Hd.
  change ((1 # 2) - 0)%Q with (1 # 2)%Q.
  split.
  - unfold Qle, Qplus, Qmult. cbn [Qnum Qden]. lia.
  - unfold Qlt, Qplus, Qmult. cbn [Qnum Qden]. lia.
Qed.

Lemma backoff_nonneg i : (0 <= SLEEP_BASE)%Q -> (0 <= backoff i)%Q.
Proof.
  intros H. unfold backoff. apply Qmult_le_0_compat; [exact H|].
  apply Qpower_0_le. discriminate.
Qed.

Lemma backoff_growth i : (backoff (i + 1) == backoff i * (8 # 5))%Q.
Proof.
  unfold backoff. rewrite Qpower_plus by discriminate.
  change ((8 # 5) ^ 1)%Q with (8 # 5)%Q. ring.
Qed.

Lemma jitter_sleep_run i w :
  (0 <= SLEEP_BASE)%Q ->
  jitter_sleep i w =
  (Ok tt, mk_world (w_requests w) (S (w_draws w)) (w_clock w)
            (w_log w ++ [Slept (backoff i + jitter_at (w_draws w))%Q])
            (w_sheets w)).
Proof.
  intros Hb. unfold jitter_sleep, random_uniform, random_random, time_sleep.
  unfold mbind, M_bind, mret, M_ret. cbn.
  fold (jitter_at (w_draws w)).
  assert (Hle : Qle_bool 0 (backoff i + jitter_at (w_draws w)) = true).
  { apply Qle_bool_iff.
    pose proof (backoff_nonneg i Hb). pose proof (jitter_bounds (w_draws w)) as [? _].
    replace 0%Q with (0 + 0)%Q by reflexivity. now apply Qplus_le_compat. }
  rewrite Hle. reflexivity.
Qed.

(** A failed attempt: one request, one sleep, and the loop goes on with
    the failure remembered. *)
Lemma nba_fetch_loop_failed url params n i last w e :
  (0 <= SLEEP_BASE)%Q ->
  attempt_failure (http_reply (w_requests w) url params) = Some e ->
  nba_fetch_loop url params (S n) i last w =
  nba_fetch_loop url params n (i + 1) (Some e)
    (mk_world (S (w_requests w)) (S (w_draws w)) (w_clock w)
       (w_log w ++ [Requested url params;
                    Slept (backoff i + jitter_at (w_draws w))%Q])
       (w_sheets w)).
Proof.
  intros Hb Hf. cbn [nba_fetch_loop].
  unfold mbind at 1. unfold M_bind at 1. unfold requests_get at 1.
  unfold attempt_failure in Hf.
  destruct (http_reply (w_requests w) url params) as [e'|status text json].
  - injection Hf as ->. unfold mbind, M_bind.
    rewrite jitter_sleep_run by exact Hb. cbn. now rewrite <- app_assoc.
  - destruct (status =? 200).
    + destruct json as [j|e']; [discriminate|]. injection Hf as ->.
      unfold mbind, M_bind.
      rewrite jitter_sleep_run by exact Hb. cbn. now rewrite <- app_assoc.
    + injection Hf as <-. unfold mbind, M_bind.
      rewrite jitter_sleep_run by exact Hb. cbn. now rewrite <- app_assoc.
Qed.

Lemma nba_fetch_loop_returns url params n i last w text j :
  http_reply (w_requests w) url params = Response 200 text (Ok j) ->
  nba_fetch_loop url params (S n) i last w =
  (Ok j, mk_world (S (w_requests w)) (w_draws w) (w_clock w)
           (w_log w ++ [Requested url params]) (w_sheets w)).
Proof.
  intros Hr. cbn [nba_fetch_loop].
  unfold mbind, M_bind, requests_get. now rewrite Hr.
Qed.

Lemma nba_fetch_loop_success url params k : forall n i last w text j,
  (0 <= SLEEP_BASE)%Q ->
  (k < n)%nat ->
  (forall t, (t < k)%nat ->
     attempt_failure (http_reply (w_requests w + t) url params) <> None) ->
  http_reply (w_requests w + k) url params = Response 200 text (Ok j) ->
  nba_fetch_loop url params n i last w =
  (Ok j, mk_world (w_requests w + S k) (w_draws w + k) (w_clock w)
           (w_log w ++ failed_attempts_log url params k i (w_draws w)
              ++ [Requested url params])
           (w_sheets w)).
Proof.
  induction k as [|k IH]; intros n i last w text j Hb Hk Hfail Hok.
  - destruct n as [|n]; [lia|]. rewrite Nat.add_0_r in Hok.
    rewrite (nba_fetch_loop_returns _ _ _ _ _ _ _ _ Hok). cbn.
    now rewrite !Nat.add_0_r, Nat.add_1_r.
  - destruct n as [|n]; [lia|].
    destruct (attempt_failure (http_reply (w_requests w) url params)) as [e|] eqn:Hf.
    2:{ exfalso. apply (Hfail 0%nat); [lia|]. now rewrite Nat.add_0_r. }
    rewrite (nba_fetch_loop_failed _ _ _ _ _ _ _ Hb Hf).
    erewrite IH; [|exact Hb|lia| |].
    + cbn. f_equal. f_equal; [lia|lia|]. now rewrite <- !app_assoc.
    + cbn. intros t Ht. replace (S (w_requests w + t))%nat
        with (w_requests w + S t)%nat by lia. apply Hfail. lia.
    + cbn. replace (S (w_requests w + k))%nat
        with (w_requests w + S k)%nat by lia. exact Hok.
Qed.

Lemma nba_fetch_loop_exhausted url params n : forall i last w,
  (0 <= SLEEP_BASE)%Q ->
  (forall t, (t < n)%nat ->
     attempt_failure (http_reply (w_requests w + t) url params) <> None) ->
  nba_fetch_loop url params n i last w =
  (Raise ("NBA fetch failed after " +:+ str_of_int MAX_TRIES +:+ " tries: "
          +:+ str_of_last_err (last_failure url params (w_requests w) n last)),
   mk_world (w_requests w + n) (w_draws w + n) (w_clock w)
     (w_log w ++ failed_attempts_log url params n i (w_draws w))
     (w_sheets w)).
Proof.
  induction n as [|n IH]; intros i last w Hb Hfail.
  - cbn. unfold raise. rewrite !Nat.add_0_r, app_nil_r. now destruct w.
  - destruct (attempt_failure (http_reply (w_requests w) url params)) as [e|] eqn:Hf.
    2:{ exfalso. apply (Hfail 0%nat); [lia|]. now rewrite Nat.add_0_r. }
    rewrite (nba_fetch_loop_failed _ _ _ _ _ _ _ Hb Hf).
    rewrite IH; [|exact Hb|].
    + cbn. f_equal.
      * f_equal. f_equal. f_equal. f_equal. f_equal.
        destruct n as [|n]; cbn.
        -- now rewrite Nat.add_0_r, Hf.
        -- now replace (S (w_requests w + n))%nat
             with (w_requests w + S n)%nat by lia.
      * f_equal; [lia|lia|]. now rewrite <- !app_assoc.
    + cbn. intros t Ht. replace (S (w_requests w + t))%nat
        with (w_requests w + S t)%nat by lia. apply Hfail. lia.
Qed.

End Fetcher.

(** ** Further properties of the utilities *)





(** [is_num]: whenever it answers true, [float(x)] succeeds with a value
    that is not NaN, so the sums guarded by it never raise; [None], the
    empty string and NaN are not numbers. *)
Theorem is_num_guards_float {lib : Pylib} (x : pyval) :
  (is_num x = true ->
     exists f, to_float x = Some f /\ f <> S754_nan)
  /\ is_num PNone = false /\ is_num (PStr "") = false
  /\ is_num (PFloat S754_nan) = false.
Proof.
  split; [|repeat split].
  intros H.
  assert (Hf : match to_float x with
               | Some f => SFeqb f f = true
               | None => False
               end).
  { destruct x as [| b | z | f | s]; simpl in *; try discriminate.
    - exact H.
    - destruct (float_of_int z); [exact H|discriminate].
    - exact H.
    - destruct s; [discriminate|].
      destruct (float_of_str (String a s)); [exact H|discriminate]. }
  destruct (to_float x) as [f|]; [|contradiction].
  exists f. split; [reflexivity|]. intros ->. discriminate.
Qed.

Lemma is_num_guards_float_witness :
  exists f, @to_float Sample.sample_lib (PStr "112") = Some f /\ f <> S754_nan.
Proof.
  apply (proj1 (@is_num_guards_float Sample.sample_lib (PStr "112"))).
  vm_compute. reflexivity.
Defined.

Lemma strip_idempotent s : strip (strip s) = strip s.
Proof. apply strip_fixed; [apply strip_head|apply strip_end]. Qed.

Lemma py_strip_idempotent s : py_strip (py_strip s) = py_strip s.
Proof.
  unfold py_strip, chars, str.
  now rewrite list_ascii_of_string_of_list_ascii, strip_idempotent.
Qed.

(** [parse_sheet_date] does not see white space around a date text, and
    [None] and the empty text parse to nothing. *)
Theorem parse_sheet_date_ignores_margin {lib : Pylib} (s : string) :
  py_strip s <> "" ->
  parse_sheet_date (PStr s) = parse_sheet_date (PStr (py_strip s))
  /\ parse_sheet_date PNone = None /\ parse_sheet_date (PStr "") = None.
Proof.
  intros Hne. split; [|split; reflexivity].
  unfold parse_sheet_date.
  destruct s as [|c s]; [contradiction Hne; reflexivity|].
  destruct (py_strip (String c s)) as [|c' s'] eqn:E; [contradiction|].
  cbn [py_str]. rewrite <- E. now rewrite py_strip_idempotent.
Qed.

Lemma parse_sheet_date_ignores_margin_witness :
  @parse_sheet_date Sample.sample_lib (PStr "  11/01/2026 ")
  = @parse_sheet_date Sample.sample_lib (PStr (py_strip "  11/01/2026 ")).
Proof.
  apply (@parse_sheet_date_ignores_margin Sample.sample_lib "  11/01/2026 ").
  vm_compute. discriminate.
Defined.

(** [parse_sheet_date] tries the five formats in their order: the first
    one that the library accepts decides, whatever the later ones or
    [fromisoformat] would give. *)
Theorem parse_sheet_date_first_format {lib : Pylib} (s : string)
  (before after : list string) (fmt : string) (d : datetime) :
  s <> "" ->
  SHEET_DATE_FORMATS = before ++ fmt :: after ->
  Forall (fun f => strptime (py_strip s) f = None) before ->
  strptime (py_strip s) fmt = Some d ->
  parse_sheet_date (PStr s) = Some d.
Proof.
  intros Hne Hsplit Hbefore Hfmt. unfold parse_sheet_date.
  destruct s as [|c s]; [contradiction|]. cbn [py_str].
  rewrite Hsplit. clear Hsplit.
  induction Hbefore as [|f before Hf _ IH]; cbn [app first_format].
  - now rewrite Hfmt.
  - rewrite Hf. exact IH.
Qed.

Lemma parse_sheet_date_first_format_witness :
  @parse_sheet_date Sample.sample_lib (PStr "2026-11-01")
  = Some (mk_datetime 2026 11 1 0 0 0 0).
Proof.
  apply (@parse_sheet_date_first_format Sample.sample_lib "2026-11-01"
           ["%m/%d/%Y %H:%M"; "%m/%d/%Y %H:%M:%S"; "%m/%d/%Y"]
           ["%Y-%m-%d %H:%M:%S"] "%Y-%m-%d").
  - discriminate.
  - reflexivity.
  - repeat constructor.
  - reflexivity.
Defined.

(** ** Column letters outside the valid range *)

Lemma col_to_a1_loop_negative fuel : forall n s,
  n < 0 -> col_to_a1_loop fuel n s = None.
Proof.
  induction fuel as [|fuel IH]; intros n s Hn; cbn [col_to_a1_loop].
  - destruct (Z.eqb_spec n 0); [lia|reflexivity].
  - destruct (Z.eqb_spec n 0); [lia|]. apply IH.
    apply Z.div_lt_upper_bound; lia.
Qed.

(** [col_to_a1] at index -1 gives the empty text, and below -1 its loop
    never ends, however many iterations it is given: [n] stays negative. *)
Theorem col_to_a1_below_zero :
  col_to_a1 (-1) = Some ""
  /\ forall i fuel s, i < -1 -> col_to_a1_loop fuel (i + 1) s = None.
Proof.
  split; [reflexivity|]. intros i fuel s Hi.
  apply col_to_a1_loop_negative. lia.
Qed.

Lemma col_to_a1_below_zero_witness :
  col_to_a1_loop 1000 (-5 + 1) "" = None.
Proof. apply (proj2 col_to_a1_below_zero). lia. Defined.

(** ** Reconciliation keys *)

Lemma chars_append s t : chars (s +:+ t) = chars s ++ chars t.
Proof.
  unfold chars. induction s as [|c s IH]; [reflexivity|].
  rewrite append_cons. simpl. now rewrite IH.
Qed.

Lemma chars_inj s t : chars s = chars t -> s = t.
Proof.
  unfold chars. intros H.
  rewrite <- (string_of_list_ascii_of_string s),
          <- (string_of_list_ascii_of_string t).
  now rewrite H.
Qed.

Lemma contains_single_cons c a l :
  contains [c] (a :: l) = Ascii.eqb c a || contains [c] l.
Proof. rewrite contains_cons. simpl. now rewrite andb_true_r. Qed.

(** Two texts cut at their first bar are equal part by part. *)
Lemma first_bar_split c (x x' y y' : list ascii) :
  contains [c] x = false -> contains [c] x' = false ->
  x ++ c :: y = x' ++ c :: y' -> x = x' /\ y = y'.
Proof.
  revert x'. induction x as [|a x IH]; intros [|a' x'] Hx Hx' E; simpl in E.
  - injection E as ->. auto.
  - injection E as <- _. rewrite contains_single_cons, Ascii.eqb_refl in Hx'.
    discriminate.
  - injection E as -> _. rewrite contains_single_cons, Ascii.eqb_refl in Hx.
    discriminate.
  - injection E as -> E. rewrite contains_single_cons in Hx, Hx'.
    apply orb_false_iff in Hx as [_ Hx]. apply orb_false_iff in Hx' as [_ Hx'].
    destruct (IH _ Hx Hx' E) as [-> ->]. auto.
Qed.

(** [build_key]: without a date the key is empty; with one, the key
    determines the two normalized names as long as the home names hold no
    bar, so swapping two different teams always changes the key. *)
Theorem build_key_determines_teams (d : datetime) (h a h' a' : string) :
  py_contains "|" (normalize_team_name h) = false ->
  py_contains "|" (normalize_team_name h') = false ->
  build_key (Some d) h a = build_key (Some d) h' a' ->
  normalize_team_name h = normalize_team_name h'
  /\ normalize_team_name a = normalize_team_name a'.
Proof.
  intros Hh Hh' E. unfold build_key in E.
  apply (f_equal chars) in E. rewrite !chars_append in E.
  apply app_inv_head in E.
  change (chars "|") with ["|"%char] in E. simpl in E.
  injection E as E.
  destruct (first_bar_split "|"%char _ _ _ _ Hh Hh' E) as [E1 E2].
  split; now apply chars_inj.
Qed.

Lemma build_key_determines_teams_witness :
  normalize_team_name "Lakers" = normalize_team_name " LAKERS"
  /\ normalize_team_name "Celtics" = normalize_team_name "celtics ".
Proof.
  apply (build_key_determines_teams (Sample.noon 2026 11 1));
    vm_compute; reflexivity.
Defined.

(** [build_key] is order sensitive: home and away may be swapped without
    changing the key only if they normalize to the same name. *)
Theorem build_key_order_sensitive (d : datetime) (h a : string) :
  py_contains "|" (normalize_team_name h) = false ->
  py_contains "|" (normalize_team_name a) = false ->
  normalize_team_name h <> normalize_team_name a ->
  build_key (Some d) h a <> build_key (Some d) a h
  /\ build_key None h a = "".
Proof.
  intros Hh Ha Hne. split; [|reflexivity]. intros E.
  now destruct (build_key_determines_teams d h a a h Hh Ha E).
Qed.

Lemma build_key_order_sensitive_witness :
  build_key (Some (Sample.noon 2026 11 1)) "Lakers" "Celtics"
  <> build_key (Some (Sample.noon 2026 11 1)) "Celtics" "Lakers".
Proof.
  apply build_key_order_sensitive; [reflexivity|reflexivity|].
  vm_compute. discriminate.
Defined.

(** ** Result sets *)

Lemma find_resultset_first items name item :
  find_resultset items name = Some item ->
  exists pre post,
    items = pre ++ Some item :: post /\ rs_name item = name
    /\ Forall (fun o => match o with
                        | Some i => rs_name i <> name
                        | None => True
                        end) pre.
Proof.
  induction items as [|o items IH]; [discriminate|]. cbn [find_resultset].
  destruct o as [i|].
  - destruct (String.eqb_spec (rs_name i) name) as [E|NE].
    + intros [= ->]. exists [], items. auto.
    + intros H. destruct (IH H) as (pre & post & -> & Hn & Hpre).
      exists (Some i :: pre), post. auto.
  - intros H. destruct (IH H) as (pre & post & -> & Hn & Hpre).
    exists (None :: pre), post. auto.
Qed.

Lemma find_resultset_none items name :
  Forall (fun o => match o with
                   | Some i => rs_name i <> name
                   | None => True
                   end) items ->
  find_resultset items name = None.
Proof.
  induction 1 as [|o items Ho _ IH]; [reflexivity|]. cbn [find_resultset].
  destruct o as [i|]; [|exact IH].
  destruct (String.eqb_spec (rs_name i) name); [contradiction|exact IH].
Qed.

(** [parse_resultset] returns the headers and rows of the first result
    set of the wanted name, and only when its headers are not empty; when
    no result set has the name it raises "Could not find". *)
Theorem parse_resultset_first_named (j : json_body) (name : string) :
  (forall headers rows,
     parse_resultset j name = Ok (headers, rows) ->
     exists pre item post,
       resultSets j = Some (pre ++ Some item :: post)
       /\ Forall (fun o => match o with
                           | Some i => rs_name i <> name
                           | None => True
                           end) pre
       /\ rs_name item = name
       /\ rs_headers item = Some headers /\ headers <> []
       /\ rs_rowSet item = Some rows)
  /\ (match resultSets j with
      | Some items => Forall (fun o => match o with
                                       | Some i => rs_name i <> name
                                       | None => True
                                       end) items
      | None => True
      end ->
      parse_resultset j name
      = Raise ("Could not find " +:+ name +:+ " in resultSets")).
Proof.
  split.
  - intros headers rows H. unfold parse_resultset in H.
    destruct (resultSets j) as [items|]; [|discriminate].
    destruct (find_resultset items name) as [item|] eqn:F; [|discriminate].
    destruct (find_resultset_first _ _ _ F) as (pre & post & -> & Hn & Hpre).
    exists pre, item, post.
    destruct (rs_headers item) as [[|h hs]|]; try discriminate.
    destruct (rs_rowSet item) as [rs|]; [|discriminate].
    injection H as <- <-. repeat split; auto.
  - intros H. unfold parse_resultset.
    destruct (resultSets j) as [items|]; [|reflexivity].
    now rewrite (find_resultset_none _ _ H).
Qed.

Lemma parse_resultset_first_named_witness :
  exists pre item post,
    resultSets (Sample.team_stats ["PTS"] [[PInt 110]])
      = Some (pre ++ Some item :: post)
    /\ Forall (fun o => match o with
                        | Some i => rs_name i <> "TeamStats"
                        | None => True
                        end) pre
    /\ rs_name item = "TeamStats"
    /\ rs_headers item = Some ["PTS"] /\ ["PTS"] <> []
    /\ rs_rowSet item = Some [[PInt 110]].
Proof.
  apply (proj1 (parse_resultset_first_named
                  (Sample.team_stats ["PTS"] [[PInt 110]]) "TeamStats")).
  reflexivity.
Defined.

(** A result set of the right name with no headers, or without rows, is
    reported as such, even if a later one of the same name is complete. *)
Theorem parse_resultset_incomplete (pre post : list (option resultset))
  (item : resultset) (name : string) :
  Forall (fun o => match o with
                   | Some i => rs_name i <> name
                   | None => True
                   end) pre ->
  rs_name item = name ->
  rs_headers item = None \/ rs_headers item = Some [] \/ rs_rowSet item = None ->
  parse_resultset (mk_json (Some (pre ++ Some item :: post))) name
  = Raise (name +:+ " missing headers/rows").
Proof.
  intros Hpre Hname Hbad. unfold parse_resultset. cbn [resultSets].
  assert (F : find_resultset (pre ++ Some item :: post) name = Some item).
  { induction Hpre as [|o pre Ho _ IH]; cbn [app find_resultset].
    - now rewrite Hname, String.eqb_refl.
    - destruct o as [i|]; [|exact IH].
      destruct (String.eqb_spec (rs_name i) name); [contradiction|exact IH]. }
  rewrite F.
  destruct Hbad as [-> | [-> | Hr]]; try reflexivity.
  rewrite Hr. now destruct (rs_headers item) as [[|? ?]|].
Qed.

Lemma parse_resultset_incomplete_witness :
  parse_resultset
    (mk_json (Some ([None] ++ Some (mk_resultset "TeamStats" (Some []) (Some []))
                      :: [Some (mk_resultset "TeamStats" (Some ["PTS"]) (Some []))])))
    "TeamStats"
  = Raise ("TeamStats" +:+ " missing headers/rows").
Proof.
  apply parse_resultset_incomplete; [repeat constructor|reflexivity|].
  right. left. reflexivity.
Defined.

(** ** Header indices *)

Lemma idx_map_from_lookup headers : forall i0 acc k i,
  idx_map_from i0 headers acc !! k = Some i ->
  (exists j h, i = (i0 + j)%nat /\ headers !! j = Some h /\ py_strip h = k
     /\ forall j' h', (j < j')%nat -> headers !! j' = Some h' -> py_strip h' <> k)
  \/ (acc !! k = Some i
      /\ forall j h, headers !! j = Some h -> py_strip h <> k).
Proof.
  induction headers as [|h0 headers IH]; intros i0 acc k i H.
  - right. split; [exact H|]. intros j h Hj. discriminate.
  - cbn [idx_map_from] in H. destruct (IH _ _ _ _ H) as
      [(j & h & -> & Hj & Hk & Hlast) | (Hacc & Hnone)].
    + left. exists (S j), h. repeat split; [lia|exact Hj|exact Hk|].
      intros [|j'] h' Hlt Hj'; [lia|]. apply (Hlast j' h'); [lia|exact Hj'].
    + destruct (decide (py_strip h0 = k)) as [E|NE].
      * rewrite E, lookup_insert_eq in Hacc. injection Hacc as <-.
        left. exists 0%nat, h0. repeat split; [lia|exact E|].
        intros [|j'] h' Hlt Hj'; [lia|]. apply (Hnone j' h'). exact Hj'.
      * rewrite lookup_insert_ne in Hacc by exact NE.
        right. split; [exact Hacc|].
        intros [|j] h Hj; [injection Hj as <-; exact NE|].
        apply (Hnone j h). exact Hj.
Qed.

Lemma idx_map_from_present headers : forall i0 acc j h,
  headers !! j = Some h ->
  is_Some (idx_map_from i0 headers acc !! py_strip h).
Proof.
  induction headers as [|h0 headers IH]; intros i0 acc j h Hj; [discriminate|].
  cbn [idx_map_from]. destruct j as [|j].
  - injection Hj as ->.
    destruct (idx_map_from (S i0) headers (<[py_strip h := i0]> acc)
                !! py_strip h) as [i|] eqn:E; [eauto|].
    exfalso. clear IH.
    assert (G : forall hs i1 acc1 k, is_Some (acc1 !! k) ->
                  is_Some (idx_map_from i1 hs acc1 !! k)).
    { induction hs as [|x hs IHh]; intros i1 acc1 k Hs; [exact Hs|].
      cbn [idx_map_from]. apply IHh.
      destruct (decide (py_strip x = k)) as [->|NE].
      - rewrite lookup_insert_eq. eauto.
      - now rewrite lookup_insert_ne by exact NE. }
    destruct (G headers (S i0) (<[py_strip h := i0]> acc) (py_strip h)) as [i Hi].
    + rewrite lookup_insert_eq. eauto.
    + congruence.
  - eapply IH. exact Hj.
Qed.

(** [idx_map]: looking a name up gives the position of the last header
    that strips to this name, and every header can be looked up. *)
Theorem idx_map_round_trip (headers : list string) :
  (forall k i,
     idx_map headers !! k = Some i ->
     exists h, headers !! i = Some h /\ py_strip h = k
       /\ forall j h', (i < j)%nat -> headers !! j = Some h' -> py_strip h' <> k)
  /\ (forall j h, headers !! j = Some h ->
        is_Some (idx_map headers !! py_strip h)).
Proof.
  split.
  - intros k i H. unfold idx_map in H.
    destruct (idx_map_from_lookup _ _ _ _ _ H) as
      [(j & h & -> & Hj & Hk & Hlast) | (Hacc & _)].
    + exists h. auto.
    + rewrite lookup_empty in Hacc. discriminate.
  - intros j h Hj. unfold idx_map. eapply idx_map_from_present. exact Hj.
Qed.

Lemma idx_map_round_trip_witness :
  exists h, ["PTS"; " TEAM_ID "; "PTS "] !! 2%nat = Some h /\ py_strip h = "PTS"
    /\ forall j h', (2 < j)%nat ->
         ["PTS"; " TEAM_ID "; "PTS "] !! j = Some h' -> py_strip h' <> "PTS".
Proof.
  apply (proj1 (idx_map_round_trip ["PTS"; " TEAM_ID "; "PTS "]) "PTS" 2%nat).
  vm_compute. reflexivity.
Defined.

(** ** Home and away rows *)

Section PickHomeAway.
Context {lib : Pylib}.

Lemma list_index_ok {A : Type} (xs : list A) i x :
  list_index xs i = Ok x -> xs !! i = Some x.
Proof. unfold list_index. destruct (xs !! i); [now intros [= ->]|discriminate]. Qed.

Lemma list_index_elem {A : Type} (xs : list A) i x :
  list_index xs i = Ok x -> x ∈ xs.
Proof. intros H. eapply list_elem_of_lookup_2, list_index_ok, H. Qed.

Lemma scan_matchup_spec rows mi : forall home away home' away',
  scan_matchup rows mi home away = Ok (home', away') ->
  ((home' = home
    /\ forall r, r ∈ rows -> py_contains " vs " (matchup_text r mi) = false)
   \/ exists r, home' = Some r /\ r ∈ rows
        /\ py_contains " vs " (matchup_text r mi) = true)
  /\ ((away' = away
       /\ forall r, r ∈ rows -> py_contains " @ " (matchup_text r mi) = false)
      \/ exists r, away' = Some r /\ r ∈ rows
           /\ py_contains " @ " (matchup_text r mi) = true).
Proof.
  induction rows as [|r rows IH]; intros home away home' away' H.
  - injection H as <- <-. split; left; (split; [reflexivity|]);
      intros r Hr; inversion Hr.
  - cbn [scan_matchup] in H. unfold mbind, result_bind in H.
    destruct (list_index r mi) as [c|e] eqn:Hc; [|discriminate].
    apply list_index_ok in Hc.
    assert (Hm : matchup_text r mi = py_str (or_empty c))
      by (unfold matchup_text; now rewrite Hc).
    rewrite <- Hm in H.
    destruct (IH _ _ _ _ H) as [Hh Ha]. split.
    + destruct Hh as [[-> Hnone] | (r' & -> & Hin & Hvs)].
      * destruct (py_contains " vs " (matchup_text r mi)) eqn:E.
        -- right. exists r. repeat split; [apply list_elem_of_here|exact E].
        -- left. split; [reflexivity|].
           intros r' Hr'. apply elem_of_cons in Hr' as [->|Hr']; auto.
      * right. exists r'. repeat split; [now apply list_elem_of_further|exact Hvs].
    + destruct Ha as [[-> Hnone] | (r' & -> & Hin & Hat)].
      * destruct (py_contains " @ " (matchup_text r mi)) eqn:E.
        -- right. exists r. repeat split; [apply list_elem_of_here|exact E].
        -- left. split; [reflexivity|].
           intros r' Hr'. apply elem_of_cons in Hr' as [->|Hr']; auto.
      * right. exists r'. repeat split; [now apply list_elem_of_further|exact Hat].
Qed.

(** [pick_home_away] only ever returns rows of its input, and on an empty
    row set it raises the [IndexError] of [rows[0]], with or without a
    MATCHUP column. *)
Theorem pick_home_away_members (rows : list (list pyval)) (hidx : gmap string nat) :
  (forall home away,
     pick_home_away rows hidx = Ok (home, away) -> home ∈ rows /\ away ∈ rows)
  /\ pick_home_away [] hidx = Raise "list index out of range".
Proof.
  split.
  - intros home away H. unfold pick_home_away in H.
    unfold mbind, result_bind, mret, result_ret in H.
    destruct (hidx !! "MATCHUP") as [mi|].
    + destruct (scan_matchup rows mi None None) as [[h' a']|e] eqn:S;
        [|discriminate].
      destruct (scan_matchup_spec _ _ _ _ _ _ S) as [Hh Ha].
      destruct h' as [h'|], a' as [a'|].
      * injection H as <- <-.
        destruct Hh as [[? _]|(r & [= ->] & ? & _)]; [discriminate|].
        destruct Ha as [[? _]|(r' & [= ->] & ? & _)]; [discriminate|]. auto.
      * destruct (2 <=? length rows)%nat;
          destruct (list_index rows 0) eqn:E0; try discriminate;
          try (destruct (list_index rows 1) eqn:E1; try discriminate);
          injection H as <- <-; eauto using list_index_elem.
      * destruct (2 <=? length rows)%nat;
          destruct (list_index rows 0) eqn:E0; try discriminate;
          try (destruct (list_index rows 1) eqn:E1; try discriminate);
          injection H as <- <-; eauto using list_index_elem.
      * destruct (2 <=? length rows)%nat;
          destruct (list_index rows 0) eqn:E0; try discriminate;
          try (destruct (list_index rows 1) eqn:E1; try discriminate);
          injection H as <- <-; eauto using list_index_elem.
    + destruct (list_index rows 0) eqn:E0; [|discriminate].
      destruct (1 <? length rows)%nat.
      * destruct (list_index rows 1) eqn:E1; [|discriminate].
        injection H as <- <-. eauto using list_index_elem.
      * injection H as <- <-. eauto using list_index_elem.
  - unfold pick_home_away. destruct (hidx !! "MATCHUP"); reflexivity.
Qed.

(** With a MATCHUP column, when some row reads "vs" and some row reads
    "@", the home row returned is one that reads "vs" and the away row
    one that reads "@", wherever they stand in the row set. *)
Theorem pick_home_away_direction (rows : list (list pyval))
  (hidx : gmap string nat) (mi : nat) (home away : list pyval) :
  hidx !! "MATCHUP" = Some mi ->
  pick_home_away rows hidx = Ok (home, away) ->
  (exists r, r ∈ rows /\ py_contains " vs " (matchup_text r mi) = true) ->
  (exists r, r ∈ rows /\ py_contains " @ " (matchup_text r mi) = true) ->
  py_contains " vs " (matchup_text home mi) = true
  /\ py_contains " @ " (matchup_text away mi) = true.
Proof.
  intros Hmi H (r1 & Hr1 & Hvs) (r2 & Hr2 & Hat).
  unfold pick_home_away in H. rewrite Hmi in H.
  unfold mbind, result_bind, mret, result_ret in H.
  destruct (scan_matchup rows mi None None) as [[h' a']|e] eqn:S; [|discriminate].
  destruct (scan_matchup_spec _ _ _ _ _ _ S) as [Hh Ha].
  destruct Hh as [[_ Hnone]|(h & -> & _ & Hh)].
  { rewrite (Hnone r1 Hr1) in Hvs. discriminate. }
  destruct Ha as [[_ Hnone]|(a & -> & _ & Ha)].
  { rewrite (Hnone r2 Hr2) in Hat. discriminate. }
  injection H as <- <-. auto.
Qed.

End PickHomeAway.

Lemma pick_home_away_members_witness :
  [PStr "BOS @ LAL"] ∈ [[PStr "BOS @ LAL"]; [PStr "LAL vs BOS"]]
  /\ [PStr "LAL vs BOS"] ∈ [[PStr "BOS @ LAL"]; [PStr "LAL vs BOS"]].
Proof.
  apply (proj1 (@pick_home_away_members Sample.sample_lib
                  [[PStr "BOS @ LAL"]; [PStr "LAL vs BOS"]] ∅)
           [PStr "BOS @ LAL"] [PStr "LAL vs BOS"]).
  reflexivity.
Defined.

Lemma pick_home_away_direction_witness :
  py_contains " vs " (@matchup_text Sample.sample_lib [PStr "LAL vs BOS"] 0) = true
  /\ py_contains " @ " (@matchup_text Sample.sample_lib [PStr "BOS @ LAL"] 0) = true.
Proof.
  apply (@pick_home_away_direction Sample.sample_lib
           [[PStr "BOS @ LAL"]; [PStr "LAL vs BOS"]]
           (<["MATCHUP" := 0%nat]> ∅) 0 [PStr "LAL vs BOS"] [PStr "BOS @ LAL"]).
  - reflexivity.
  - vm_compute. reflexivity.
  - exists [PStr "LAL vs BOS"]. split; [|reflexivity].
    apply list_elem_of_further, list_elem_of_here.
  - exists [PStr "BOS @ LAL"]. split; [|reflexivity]. apply list_elem_of_here.
Defined.

(** ** Chunks and sorting in [main] *)

Lemma chunks_fuel_spec {A : Type} (n : nat) : forall fuel (l : list A),
  (0 < n)%nat -> (length l <= fuel)%nat ->
  concat (chunks_fuel fuel n l) = l
  /\ Forall (fun c => (0 < length c <= n)%nat) (chunks_fuel fuel n l).
Proof.
  induction fuel as [|fuel IH]; intros l Hn Hl.
  - destruct l; [split; [reflexivity|constructor]|simpl in Hl; lia].
  - destruct l as [|x l]; [split; [reflexivity|constructor]|].
    cbn [chunks_fuel].
    destruct (IH (drop n (x :: l)) Hn) as [Hc Hf].
    { rewrite length_drop. simpl in *. lia. }
    split.
    + cbn [concat]. rewrite Hc. apply take_drop.
    + constructor; [|exact Hf]. rewrite length_take. simpl. lia.
Qed.

(** The write-back is sent in chunks of at most 200 cells: the chunks are
    never empty, none is longer than the chunk size and, put end to end,
    they are exactly the cells to write, in order. *)
Theorem chunks_cover {A : Type} (n : nat) (l : list A) :
  (0 < n)%nat ->
  concat (chunks n l) = l
  /\ Forall (fun c => (0 < length c <= n)%nat) (chunks n l).
Proof. intros Hn. apply chunks_fuel_spec; [exact Hn|lia]. Qed.

Lemma chunks_cover_witness :
  concat (chunks 2 [1; 2; 3; 4; 5]) = [1; 2; 3; 4; 5]
  /\ Forall (fun c => (0 < length c <= 2)%nat) (chunks 2 [1; 2; 3; 4; 5]).
Proof. apply chunks_cover. lia. Defined.

Section StableSort.
Context {A : Type} (before : A -> A -> bool).
Hypothesis before_asym : forall x y, before x y = true -> before y x = false.

Lemma insert_stable_perm x l : Permutation (insert_stable before x l) (x :: l).
Proof.
  induction l as [|y l IH]; [reflexivity|]. cbn [insert_stable].
  destruct (before y x); [|reflexivity].
  rewrite IH. apply perm_swap.
Qed.

Lemma stable_sort_perm l : Permutation (stable_sort before l) l.
Proof.
  unfold stable_sort. induction l as [|x l IH]; [reflexivity|].
  cbn [foldr]. rewrite insert_stable_perm. now constructor.
Qed.

Lemma insert_stable_hd x l z :
  HdRel (fun a b => before b a = false) z l ->
  before x z = false ->
  HdRel (fun a b => before b a = false) z (insert_stable before x l).
Proof.
  intros Hl Hx. destruct l as [|y l]; cbn [insert_stable].
  - now constructor.
  - destruct (before y x); constructor; [now inversion Hl|exact Hx].
Qed.

Lemma insert_stable_sorted x l :
  Sorted (fun a b => before b a = false) l ->
  Sorted (fun a b => before b a = false) (insert_stable before x l).
Proof.
  induction 1 as [|y l Hs IH Hhd]; cbn [insert_stable].
  - repeat constructor.
  - destruct (before y x) eqn:E.
    + constructor; [exact IH|]. apply insert_stable_hd; [exact Hhd|].
      now apply before_asym.
    + constructor; [now constructor|]. now constructor.
Qed.

Lemma stable_sort_sorted l :
  Sorted (fun a b => before b a = false) (stable_sort before l).
Proof.
  unfold stable_sort. induction l as [|x l IH]; [constructor|].
  cbn [foldr]. now apply insert_stable_sorted.
Qed.

End StableSort.

Lemma lex_ltb_asym a : forall b, lex_ltb a b = true -> lex_ltb b a = false.
Proof.
  induction a as [|x a IH]; intros [|y b] H; try reflexivity; try discriminate.
  cbn [lex_ltb] in *.
  apply orb_true_iff in H as [H|H].
  - apply Z.ltb_lt in H. apply orb_false_iff. split.
    + apply Z.ltb_ge. lia.
    + apply andb_false_iff. left. apply Z.eqb_neq. lia.
  - apply andb_true_iff in H as [E H]. apply Z.eqb_eq in E. subst y.
    rewrite Z.ltb_irrefl, Z.eqb_refl. simpl. now apply IH.
Qed.

(** The candidates of a run are exactly the games whose ESPN identifier
    resolved to a non-empty NBA identifier, and they are walked newest
    first: no candidate is dated before the one that follows it. *)
Theorem candidates_newest_first (info : list (string * game_info))
  (espn_to_nba : gmap string string) :
  Sorted (fun a b => dt_ltb (snd a) (snd b) = false) (candidates info espn_to_nba)
  /\ forall c, c ∈ candidates info espn_to_nba <->
       exists e, e ∈ info /\ espn_to_nba !! fst e = Some (fst c)
                 /\ fst c <> "" /\ snd c = gi_date (snd e).
Proof.
  unfold candidates. split.
  - apply (stable_sort_sorted (fun y x => dt_ltb (snd x) (snd y))).
    intros x y H. unfold dt_ltb in *. now apply lex_ltb_asym.
  - intros c. rewrite (stable_sort_perm _ _). rewrite list_elem_of_omap.
    split.
    + intros (e & He & Hc). exists e. split; [exact He|].
      destruct (espn_to_nba !! fst e) as [id|] eqn:Hid; simpl in Hc.
      * destruct (String.eqb_spec id ""); [discriminate|].
        injection Hc as <-. auto.
      * discriminate.
    + intros (e & He & Hid & Hne & Hd). exists e. split; [exact He|].
      rewrite Hid. simpl.
      destruct (String.eqb_spec (fst c) ""); [contradiction|].
      rewrite <- Hd. now destruct c.
Qed.

(** ** Grouping by day and matching *)

Section Grouping.
Context {A : Type} (key : A -> string).

Lemma group_add_keys x : forall groups k,
  k ∈ map fst (group_add (key x) x groups) ->
  k = key x \/ k ∈ map fst groups.
Proof.
  induction groups as [|[k0 l0] groups IH]; intros k Hk; cbn [group_add] in Hk.
  - apply elem_of_cons in Hk as [->|Hk]; [now left|inversion Hk].
  - destruct (String.eqb_spec k0 (key x)) as [E|NE]; cbn [map fst] in *.
    + now right.
    + apply elem_of_cons in Hk as [->|Hk]; [right; apply list_elem_of_here|].
      destruct (IH _ Hk) as [->|H]; [now left|right].
      now apply list_elem_of_further.
Qed.

Lemma group_add_well_grouped x groups :
  well_grouped key groups -> well_grouped key (group_add (key x) x groups).
Proof.
  intros [Hnd Hf].
  induction groups as [|[k0 l0] groups IH]; cbn [group_add].
  - split; [repeat constructor; intros H; inversion H|].
    repeat constructor. discriminate.
  - cbn [map fst] in Hnd. apply NoDup_cons in Hnd as [Hk0 Hnd].
    inversion Hf as [|? ? [Hne Hl0] Hf']; subst. cbn [fst snd] in *.
    destruct (String.eqb_spec k0 (key x)) as [E|NE].
    + split; [cbn [map fst]; now apply NoDup_cons|].
      constructor; [|exact Hf']. cbn [fst snd]. split.
      * intros H. apply app_eq_nil in H as [_ H]. discriminate.
      * apply Forall_app. split; [exact Hl0|]. repeat constructor. now symmetry.
    + destruct (IH Hnd Hf') as [Hnd' Hf''].
      split.
      * cbn [map fst]. apply NoDup_cons. split; [|exact Hnd'].
        intros Hin. destruct (group_add_keys _ _ _ Hin) as [->|H]; [now apply NE|].
        now apply Hk0.
      * constructor; [|exact Hf'']. cbn [fst snd]. auto.
Qed.

Lemma group_add_perm x : forall groups,
  Permutation (concat (map snd (group_add (key x) x groups)))
              (x :: concat (map snd groups)).
Proof.
  induction groups as [|[k0 l0] groups IH]; cbn [group_add].
  - reflexivity.
  - destruct (String.eqb k0 (key x)); simpl.
    + rewrite <- app_assoc. symmetry. apply Permutation_middle.
    + rewrite IH. symmetry. apply Permutation_middle.
Qed.

Lemma fold_group_add items : forall groups,
  well_grouped key groups ->
  let r := fold_left (fun g e => group_add (key e) e g) items groups in
  well_grouped key r
  /\ Permutation (concat (map snd r)) (concat (map snd groups) ++ items).
Proof.
  induction items as [|x items IH]; intros groups Hw; cbn [fold_left].
  - split; [exact Hw|]. now rewrite app_nil_r.
  - destruct (IH _ (group_add_well_grouped x groups Hw)) as [Hw' Hp].
    split; [exact Hw'|]. rewrite Hp, group_add_perm.
    change (x :: concat (map snd groups)) with ([x] ++ concat (map snd groups)).
    rewrite (Permutation_app_comm [x]), <- app_assoc. reflexivity.
Qed.

End Grouping.

(** [date_to_list] of [map_espn_to_nba]: each day appears once, no day
    has an empty game list (so [games[0]] never raises), the games of a
    day all carry that day, and no game is lost or repeated. *)
Theorem date_to_list_groups (info : list (string * game_info)) :
  NoDup (map fst (date_to_list info))
  /\ Forall (fun kg =>
               snd kg <> []
               /\ Forall (fun e => strftime_y_m_d (gi_date (snd e)) = fst kg)
                         (snd kg))
            (date_to_list info)
  /\ Permutation (concat (map snd (date_to_list info))) info.
Proof.
  unfold date_to_list.
  destruct (fold_group_add (fun e : string * game_info =>
                              strftime_y_m_d (gi_date (snd e))) info [])
    as [[Hnd Hf] Hp].
  - split; constructor.
  - repeat split; assumption.
Qed.

Lemma schedule_lookup_sound nba_games : forall (acc : gmap string string) k id,
  fold_left (fun lookup g =>
               <[matchup (sg_home g) (sg_away g) := nba_game_id g]> lookup)
            nba_games acc !! k = Some id ->
  acc !! k = Some id
  \/ exists g, g ∈ nba_games /\ matchup (sg_home g) (sg_away g) = k
               /\ nba_game_id g = id.
Proof.
  induction nba_games as [|g gs IH]; intros acc k id H; cbn [fold_left] in H.
  - now left.
  - destruct (IH _ _ _ H) as [Hacc|(g' & Hin & Hk & Hid)].
    + destruct (decide (matchup (sg_home g) (sg_away g) = k)) as [E|NE].
      * rewrite E, lookup_insert_eq in Hacc. injection Hacc as <-.
        right. exists g. split; [apply list_elem_of_here|auto].
      * rewrite lookup_insert_ne in Hacc by exact NE. now left.
    + right. exists g'. split; [now apply list_elem_of_further|auto].
Qed.

Lemma match_games_sound (lookup : gmap string string) games :
  forall (acc : gmap string string) espn id,
  match_games lookup games acc !! espn = Some id ->
  acc !! espn = Some id
  \/ exists e, e ∈ games /\ fst e = espn /\ id <> ""
       /\ lookup !! matchup (gi_home (snd e)) (gi_away (snd e)) = Some id.
Proof.
  unfold match_games.
  induction games as [|e games IH]; intros acc espn id H; cbn [fold_left] in H.
  - now left.
  - destruct (IH _ _ _ H) as [Hacc|(e' & Hin & He & Hne & Hl)].
    + destruct (lookup !! matchup (gi_home (snd e)) (gi_away (snd e)))
        as [nid|] eqn:L; simpl in Hacc; [|now left].
      destruct (String.eqb_spec nid "") as [->|NE]; [now left|].
      destruct (decide (fst e = espn)) as [E|NE'].
      * rewrite E, lookup_insert_eq in Hacc. injection Hacc as <-.
        right. exists e. split; [apply list_elem_of_here|auto].
      * rewrite lookup_insert_ne in Hacc by exact NE'. now left.
    + right. exists e'. split; [now apply list_elem_of_further|auto].
Qed.



(** ** Header rows *)

Lemma header_index_from_lookup headers : forall i0 (acc : gmap string nat) k i,
  header_index_from i0 headers acc !! k = Some i ->
  (exists j, i = (i0 + j)%nat /\ headers !! j = Some k /\ k <> "")
  \/ acc !! k = Some i.
Proof.
  induction headers as [|h headers IH]; intros i0 acc k i H.
  - now right.
  - cbn [header_index_from] in H.
    destruct (IH _ _ _ _ H) as [(j & -> & Hj & Hk)|Hacc].
    + left. exists (S j). split; [lia|auto].
    + destruct (String.eqb_spec h "") as [E|NE]; [now right|].
      destruct (decide (h = k)) as [->|NE'].
      * rewrite lookup_insert_eq in Hacc. injection Hacc as <-.
        left. exists 0%nat. split; [lia|auto].
      * rewrite lookup_insert_ne in Hacc by exact NE'. now right.
Qed.

Lemma header_index_from_keeps headers : forall i0 (acc : gmap string nat) k,
  is_Some (acc !! k) -> is_Some (header_index_from i0 headers acc !! k).
Proof.
  induction headers as [|h headers IH]; intros i0 acc k Hk; [exact Hk|].
  cbn [header_index_from]. apply IH.
  destruct (String.eqb h ""); [exact Hk|].
  destruct (decide (h = k)) as [->|NE].
  - rewrite lookup_insert_eq. eauto.
  - now rewrite lookup_insert_ne by exact NE.
Qed.

Lemma header_index_from_present headers : forall i0 (acc : gmap string nat) k,
  k ∈ headers -> k <> "" -> is_Some (header_index_from i0 headers acc !! k).
Proof.
  induction headers as [|h headers IH]; intros i0 acc k Hin Hk; [inversion Hin|].
  cbn [header_index_from]. apply elem_of_cons in Hin as [<-|Hin].
  - apply header_index_from_keeps.
    destruct (String.eqb_spec k ""); [contradiction|].
    rewrite lookup_insert_eq. eauto.
  - now apply IH.
Qed.

Lemma header_index_from_absent headers : forall i0 (acc : gmap string nat) k,
  k ∉ headers -> header_index_from i0 headers acc !! k = acc !! k.
Proof.
  induction headers as [|h headers IH]; intros i0 acc k Hk; [reflexivity|].
  cbn [header_index_from]. apply not_elem_of_cons in Hk as [Hne Hk].
  rewrite IH by exact Hk.
  destruct (String.eqb h ""); [reflexivity|].
  now rewrite lookup_insert_ne by congruence.
Qed.

Lemma header_index_from_app hs ms : forall i0 (acc : gmap string nat),
  header_index_from i0 (hs ++ ms) acc
  = header_index_from (i0 + length hs) ms (header_index_from i0 hs acc).
Proof.
  induction hs as [|h hs IH]; intros i0 acc; cbn [app header_index_from length].
  - now rewrite Nat.add_0_r.
  - rewrite IH. f_equal. lia.
Qed.

(** The index built from a header row: a name found in it stands in the
    returned column, and every non-empty header can be found. *)
Lemma header_index_sound headers k i :
  header_index headers !! k = Some i -> headers !! i = Some k /\ k <> "".
Proof.
  intros H. unfold header_index in H.
  destruct (header_index_from_lookup _ _ _ _ _ H) as [(j & -> & Hj & Hk)|Hacc].
  - auto.
  - rewrite lookup_empty in Hacc. discriminate.
Qed.

Section EnsureHeaders.
Context {lib : Pylib}.

Lemma in_map_false_iff (m : gmap string nat) k :
  in_map m k = false <-> m !! k = None.
Proof. unfold in_map. destruct (m !! k); split; congruence. Qed.

(** What [ensure_headers] computes from the cells of row 1. *)
Lemma ensure_headers_result tab required w col w' :
  ensure_headers tab required w = (Ok col, w') ->
  exists c cs rest,
    w_sheets w !! tab = Some ((c :: cs) :: rest)
    /\ let headers := map (fun h => py_strip (py_str h)) (c :: cs) in
       let missing :=
         filter (fun h => in_map (header_index headers) h = false) required in
       col = header_index (headers ++ missing).
Proof.
  unfold ensure_headers, get_values, sheet_rows.
  unfold mbind, M_bind, mret, M_ret.
  destruct (w_sheets w !! tab) as [rows|] eqn:Hs; [|discriminate].
  destruct rows as [|[|c cs] rest]; try discriminate.
  set (headers := map (fun h => py_strip (py_str h)) (c :: cs)).
  set (missing := filter _ required).
  intros H. exists c, cs, rest. split; [reflexivity|]. cbv zeta.
  fold headers. fold missing.
  destruct missing as [|m ms] eqn:Hm.
  - injection H as <- _. now rewrite app_nil_r.
  - unfold update_values, sheet_rows, set_sheet, log_event in H.
    unfold mbind, M_bind, mret, M_ret in H. cbn in H. rewrite Hs in H.
    cbn in H. now injection H as <- _.
Qed.

(** After [ensure_headers] succeeds, every non-empty required name is a
    key of the returned index, so [col[name]] never raises in the callers;
    and a name that already stood in row 1 keeps the column it had. *)
Theorem ensure_headers_index (tab : string) (required : list string)
  (w w' : World) (col : gmap string nat) :
  ensure_headers tab required w = (Ok col, w') ->
  (forall r, r ∈ required -> r <> "" -> is_Some (col !! r))
  /\ (exists row1 rest,
        w_sheets w !! tab = Some (row1 :: rest)
        /\ forall k i,
             header_index (map (fun h => py_strip (py_str h)) row1) !! k = Some i ->
             col !! k = Some i).
Proof.
  intros H. destruct (ensure_headers_result _ _ _ _ _ H)
    as (c & cs & rest & Hs & Hcol). cbv zeta in Hcol.
  set (headers := map (fun h => py_strip (py_str h)) (c :: cs)) in *.
  set (missing := filter _ required) in *.
  split.
  - intros r Hr Hne. subst col. unfold header_index.
    destruct (header_index headers !! r) as [i|] eqn:E.
    + apply header_index_from_present; [|exact Hne].
      apply elem_of_app. left.
      apply header_index_sound in E as [E _].
      eapply list_elem_of_lookup_2, E.
    + apply header_index_from_present; [|exact Hne].
      apply elem_of_app. right. apply list_elem_of_filter. split; [|exact Hr].
      now apply in_map_false_iff.
  - exists (c :: cs), rest. split; [exact Hs|]. intros k i Hk.
    subst col. unfold header_index. rewrite header_index_from_app.
    rewrite header_index_from_absent; [exact Hk|].
    intros Hin. apply list_elem_of_filter in Hin as [Hin _].
    apply in_map_false_iff in Hin. fold headers in Hk. congruence.
Qed.

(** Without a header row (no row at all, or an empty first row)
    [ensure_headers] raises and writes nothing. *)
Theorem ensure_headers_missing_row (tab : string) (required : list string)
  (w : World) (rest : list (list pyval)) :
  w_sheets w !! tab = Some [] \/ w_sheets w !! tab = Some ([] :: rest) ->
  ensure_headers tab required w = (Raise (tab +:+ " missing header row"), w).
Proof.
  intros H. unfold ensure_headers, get_values, sheet_rows.
  unfold mbind, M_bind, mret, M_ret.
  destruct H as [-> | ->]; reflexivity.
Qed.

End EnsureHeaders.

Lemma ensure_headers_index_witness :
  (forall r, r ∈ ["Team"; "NBA Game ID"] -> r <> "" ->
     is_Some (header_demo_index !! r))
  /\ (exists row1 rest,
        w_sheets header_demo_world !! "T" = Some (row1 :: rest)
        /\ forall k i,
             header_index (map (fun h => py_strip (@py_str Sample.sample_lib h)) row1)
               !! k = Some i ->
             header_demo_index !! k = Some i).
Proof.
  apply (@ensure_headers_index Sample.sample_lib "T" ["Team"; "NBA Game ID"]
           header_demo_world
           (snd (@ensure_headers Sample.sample_lib "T" ["Team"; "NBA Game ID"]
                   header_demo_world))).
  vm_compute. reflexivity.
Defined.

Lemma ensure_headers_missing_row_witness :
  @ensure_headers Sample.sample_lib "ADV" ADV_COLUMNS
    (Sample.world_of (<["ADV" := []]> ∅))
  = (Raise ("ADV" +:+ " missing header row"), Sample.world_of (<["ADV" := []]> ∅)).
Proof.
  apply (@ensure_headers_missing_row Sample.sample_lib "ADV" ADV_COLUMNS
           (Sample.world_of (<["ADV" := []]> ∅)) []).
  left. vm_compute. reflexivity.
Defined.

(** ** The fetcher and the scoreboard *)





Section Scoreboard.
Context {lib : Pylib}.

Lemma header_games_named gh_rows gh names : forall games,
  header_games gh_rows gh names = Ok games ->
  Forall (fun g => nba_game_id g <> "" /\ sg_home g <> "" /\ sg_away g <> ""
                   /\ exists home_tid away_tid,
                        names !! home_tid = Some (sg_home g)
                        /\ names !! away_tid = Some (sg_away g))
         games.
Proof.
  induction gh_rows as [|r rows IH]; intros games H; cbn [header_games] in H.
  - injection H as <-. constructor.
  - unfold mbind, result_bind, mret, result_ret in H.
    destruct (str_cell r gh "GAME_ID") as [gid|]; [|discriminate].
    destruct (str_cell r gh "HOME_TEAM_ID") as [ht|]; [|discriminate].
    destruct (str_cell r gh "VISITOR_TEAM_ID") as [at_|]; [|discriminate].
    destruct (header_games rows gh names) as [gs|]; [|discriminate].
    specialize (IH gs eq_refl).
    destruct (String.eqb_spec gid ""); simpl in H; [now injection H as <-|].
    destruct (names !! ht) as [hn|] eqn:Hh; simpl in H; [|now injection H as <-].
    destruct (String.eqb_spec hn ""); simpl in H; [now injection H as <-|].
    destruct (names !! at_) as [an|] eqn:Ha; simpl in H; [|now injection H as <-].
    destruct (String.eqb_spec an ""); simpl in H; [now injection H as <-|].
    injection H as <-. constructor; [|exact IH]. cbn. eauto 10.
Qed.

End Scoreboard.



(** ** The trigger endpoint *)

Lemma py_last_suffix n s :
  exists pre, chars s = pre ++ chars (py_last n s)
              /\ length (chars (py_last n s)) = Nat.min n (length (chars s)).
Proof.
  assert (E : chars (py_last n s) = drop (length (chars s) - n) (chars s))
    by apply list_ascii_of_string_of_list_ascii.
  rewrite E.
  exists (take (length (chars s) - n) (chars s)). split.
  - now rewrite take_drop.
  - rewrite length_drop. lia.
Qed.


(** ** Writing identifiers back *)

Section Writeback.
Context {cfg : Config}.


End Writeback.


